(** * PDF-to-video script pipeline: section splitter and script builder

    A shallow embedding of [pdf_extractor.py] (class [PDFExtractor]) and
    [script_generator.py] (class [ScriptGenerator]), followed by the
    properties of the splitter and of the script builder.  Of the
    renderer ([video_generator.py]) and of the two entry scripts the file
    names and the choice of the scenes rendered are embedded; the drawing,
    the speech synthesis and the encoding are calls into libraries.

    Text is a list of characters with the code points 0..255.  The
    character classes below are the classes of Python's [str] methods and
    of [re] on these code points: the white space includes U+0085 and
    U+00A0, the cased characters include the letters of the range
    U+00AA..U+00FF, and lower-casing maps each capital of the range to its
    small letter.  Text with code points above 255 is outside the
    embedding.

    Both classes are stateful: an instance carries fields that its methods
    extend in place.  A method is embedded as a function from the state of
    the instance to the returned value and the new state.  What a method
    prints and the file [save_script] writes are left out: the record
    written is the record returned. *)

From Stdlib Require DecimalString DecimalNat.
From Stdlib Require Import Ascii String NArith ZArith Arith Bool Lia List Sorted
  Permutation.
Import ListNotations.

Local Open Scope list_scope.

(** ** Text and the [str] methods the program uses *)

Abbreviation text := (list ascii).

Definition str (s : string) : text := list_ascii_of_string s.

Definition code (c : ascii) : N := N_of_ascii c.

Definition between (lo hi : N) (c : ascii) : bool :=
  (N.leb lo (code c) && N.leb (code c) hi)%bool.

(** The pattern classes [A-Z] and [a-z], and the decimal digits: the
    class [\d] has no other character below U+0100. *)
Definition is_upper (c : ascii) : bool := between 65 90 c.
Definition is_lower (c : ascii) : bool := between 97 122 c.
Definition isdigit (c : ascii) : bool := between 48 57 c.

(** White space as [str.isspace], [str.strip], [str.split] and the
    pattern class [\s] see it: tab, line feed, vertical tab, form feed,
    carriage return, the four separators 28..31, the space, the next-line
    character U+0085 and the no-break space U+00A0. *)
Definition isspace (c : ascii) : bool :=
  (between 9 13 c || between 28 32 c ||
   between 133 133 c || between 160 160 c)%bool.

(** The upper-case characters ([c.isupper()]): A-Z, U+00C0..U+00D6 and
    U+00D8..U+00DE. *)
Definition cased_upper (c : ascii) : bool :=
  (is_upper c || between 192 214 c || between 216 222 c)%bool.

(** The lower-case characters ([c.islower()]): a-z, the ordinal
    indicators U+00AA and U+00BA, the micro sign U+00B5, U+00DF..U+00F6
    and U+00F8..U+00FF.  The range has no title-case character. *)
Definition cased_lower (c : ascii) : bool :=
  (is_lower c || between 170 170 c || between 181 181 c ||
   between 186 186 c || between 223 246 c || between 248 255 c)%bool.

(** [c.lower()]: every upper-case character of the range has its small
    letter 32 places further. *)
Definition to_lower (c : ascii) : ascii :=
  if cased_upper c then ascii_of_N (code c + 32) else c.

(** The title-case form of a character, which [capitalize] gives to the
    first character: the capital of a small letter, 32 places before it,
    and "Ss" for the sharp s U+00DF.  The capitals of U+00B5 and U+00FF
    have code points above 255: these two are left as they are here, and
    the program never capitalizes a word that holds one (it capitalizes a
    word only when [isupper] holds, so without lower-case character). *)
Definition to_title (c : ascii) : text :=
  if (is_lower c || between 224 246 c || between 248 254 c)%bool
  then [ascii_of_N (code c - 32)]
  else if between 223 223 c then str "Ss"
  else [c].

(** [s.lower()] *)
Definition lower (s : text) : text := map to_lower s.

(** [s.isupper()]: at least one upper-case character, and no lower-case
    one. *)
Definition isupper (s : text) : bool :=
  (existsb cased_upper s && negb (existsb cased_lower s))%bool.

(** [s.capitalize()] *)
Definition capitalize (s : text) : text :=
  match s with
  | [] => []
  | c :: t => to_title c ++ lower t
  end.

Fixpoint lstrip (s : text) : text :=
  match s with
  | [] => []
  | c :: t => if isspace c then lstrip t else s
  end.

Definition rstrip (s : text) : text := rev (lstrip (rev s)).

(** [s.strip()] *)
Definition strip (s : text) : text := rstrip (lstrip s).

(** [s.split(sep)] for a one-character separator: every occurrence cuts,
    empty pieces are kept, and the empty text gives one empty piece. *)
Fixpoint split_char (sep : ascii) (s : text) : list text :=
  match s with
  | [] => [[]]
  | c :: t =>
      if Ascii.eqb c sep then [] :: split_char sep t
      else match split_char sep t with
           | h :: r => (c :: h) :: r
           | [] => [[c]]
           end
  end.

(** [s.split()]: the maximal runs of characters that are not white space. *)
Fixpoint split_ws_from (cur : text) (s : text) : list text :=
  match s with
  | [] => match cur with [] => [] | _ => [cur] end
  | c :: t =>
      if isspace c
      then match cur with
           | [] => split_ws_from [] t
           | _ => cur :: split_ws_from [] t
           end
      else split_ws_from (cur ++ [c]) t
  end.

Definition split_ws (s : text) : list text := split_ws_from [] s.

(** [sep.join(l)] *)
Fixpoint join (sep : text) (l : list text) : text :=
  match l with
  | [] => []
  | [x] => x
  | x :: r => x ++ sep ++ join sep r
  end.

Fixpoint startswith (p s : text) : bool :=
  match p, s with
  | [], _ => true
  | _ :: _, [] => false
  | a :: p', b :: s' => (Ascii.eqb a b && startswith p' s')%bool
  end.

(** [s.endswith(p)] *)
Definition endswith (p s : text) : bool := startswith (rev p) (rev s).

(** [needle in hay] *)
Fixpoint contains (needle hay : text) : bool :=
  (startswith needle hay ||
   match hay with
   | [] => false
   | _ :: t => contains needle t
   end)%bool.

(** Truth value of a text or of a list: not empty. *)
Definition truthy {A : Type} (l : list A) : bool :=
  match l with [] => false | _ => true end.

Definition truthy_opt {A : Type} (o : option A) : bool :=
  match o with Some _ => true | None => false end.

(** ** The fragment of [re] the program uses

    The patterns of the program are built from literal characters,
    character classes, a greedy repetition of a class ([c+], [c*]), a
    fixed repetition, an optional part and concatenation.  The matcher is
    a backtracking matcher in continuation style, trying the alternatives
    in the order of [re]: a greedy repetition takes as much as it can and
    gives characters back one at a time, an optional part is tried
    present first. *)

Inductive regex : Type :=
| Eps : regex
| Chr : ascii -> regex
| Cls : (ascii -> bool) -> regex
| Rep : (ascii -> bool) -> nat -> regex   (* at least [n] of the class, greedy *)
| Opt : regex -> regex
| Cat : regex -> regex -> regex.

Fixpoint times (n : nat) (r : regex) : regex :=
  match n with
  | 0 => Eps
  | S m => Cat r (times m r)
  end.

Fixpoint rep_go {A : Type} (p : ascii -> bool) (lo : nat) (s : text)
    (k : text -> option A) : option A :=
  let stop := match lo with 0 => k s | S _ => None end in
  match s with
  | [] => stop
  | c :: t =>
      if p c
      then match rep_go p (pred lo) t k with
           | Some a => Some a
           | None => stop
           end
      else stop
  end.

Fixpoint re_go {A : Type} (r : regex) (s : text) (k : text -> option A)
    : option A :=
  match r with
  | Eps => k s
  | Chr c =>
      match s with
      | x :: t => if Ascii.eqb x c then k t else None
      | [] => None
      end
  | Cls p =>
      match s with
      | x :: t => if p x then k t else None
      | [] => None
      end
  | Rep p lo => rep_go p lo s k
  | Opt r1 =>
      match re_go r1 s k with
      | Some a => Some a
      | None => k s
      end
  | Cat r1 r2 => re_go r1 s (fun s' => re_go r2 s' k)
  end.

(** [re.match(r, s)]: a match anchored at the start of [s]; the result is
    the text left after the match. *)
Definition re_match (r : regex) (s : text) : option text :=
  re_go r s (fun rest => Some rest).

(** Number of characters the match at the start of [s] takes. *)
Definition match_len (r : regex) (s : text) : option nat :=
  match re_match r s with
  | Some rest => Some (length s - length rest)
  | None => None
  end.

(** [re.sub(r, repl, s)] for a pattern whose matches are never empty (all
    the patterns given to [re.sub] here start with a literal): scan from
    the left, replace the match found at the current position and go on
    after it, else copy one character.  [skip] counts the characters of
    the current match still to be passed over. *)
Fixpoint re_sub_from (r : regex) (repl : text) (skip : nat) (s : text) : text :=
  match s with
  | [] => []
  | c :: t =>
      match skip with
      | S n => re_sub_from r repl n t
      | 0 =>
          match match_len r s with
          | Some (S n) => repl ++ re_sub_from r repl n t
          | _ => c :: re_sub_from r repl 0 t
          end
      end
  end.

Definition re_sub (r : regex) (repl s : text) : text := re_sub_from r repl 0 s.

(** [re.split(r, s)], again for a pattern without empty matches: the
    pieces between the matches, empty pieces included. *)
Fixpoint re_split_from (r : regex) (skip : nat) (cur : text) (s : text)
    : list text :=
  match s with
  | [] => [cur]
  | c :: t =>
      match skip with
      | S n => re_split_from r n cur t
      | 0 =>
          match match_len r s with
          | Some (S n) => cur :: re_split_from r n [] t
          | _ => re_split_from r 0 (cur ++ [c]) t
          end
      end
  end.

Definition re_split (r : regex) (s : text) : list text := re_split_from r 0 [] s.

(** ** [pdf_extractor.py] *)

(** A section: the dict with the keys ["title"] and ["content"]. *)
Record section : Type := mkSection {
  sec_title : text;
  sec_content : text
}.

(** What reading the PDF gives to one call of [extract_text]: the texts
    of the pages extracted before the read ended, and whether it ended by
    an exception (the file cannot be opened or parsed: no page is read; a
    page cannot be extracted: the pages before it are read). *)
Record pdf_read : Type := mkRead {
  pages_read : list text;
  read_failed : bool
}.

Module PDFExtractor.

(** The fields of an instance. *)
Record state : Type := mkState {
  pdf_path : text;
  text_content : text;
  sections : list section
}.

(** [__init__] *)
Definition init (path : text) : state :=
  {| pdf_path := path; text_content := []; sections := [] |}.

(** [extract_text]: every page read is appended to [self.text_content],
    followed by a line feed; on an exception the method returns the
    empty text, and the field keeps what was appended. *)
Definition extract_text (r : pdf_read) (st : state) : text * state :=
  let appended :=
    fold_left (fun acc page => acc ++ page ++ str (String "010" EmptyString))
              (pages_read r) (text_content st) in
  let st' := {| pdf_path := pdf_path st;
                text_content := appended;
                sections := sections st |} in
  (if read_failed r then [] else appended, st').

Definition header_keywords : list text :=
  [str "Introduction"; str "Overview"; str "Conclusion"; str "Summary";
   str "Properties"; str "Applications"; str "Technology"; str "Performance"].

(** The pattern [^\d+\.?\s+[A-Z]]. *)
Definition numbered_re : regex :=
  Cat (Rep isdigit 1)
    (Cat (Opt (Chr "."))
      (Cat (Rep isspace 1) (Cls is_upper))).

(** [_is_section_header] *)
Definition _is_section_header (line : text) : bool :=
  if (isupper line && (length line <? 100))%bool then true
  else if truthy_opt (re_match numbered_re line) then true
  else existsb
         (fun keyword =>
            (contains (lower keyword) (lower line) && (length line <? 100))%bool)
         header_keywords.

(** The loop of [parse_sections] over the lines: [secs] is
    [self.sections], [cur] the current section.  A section is appended
    to [self.sections] when the next header is met, and [cur] is bound
    to a new dict at once, so no dict is changed after it was appended. *)
Fixpoint parse_loop (lines : list text) (secs : list section) (cur : section)
    : list section * section :=
  match lines with
  | [] => (secs, cur)
  | raw :: rest =>
      let line := strip raw in
      if negb (truthy line) then parse_loop rest secs cur
      else if _is_section_header line
      then
        let secs' := if truthy (sec_content cur) then secs ++ [cur] else secs in
        parse_loop rest secs' {| sec_title := line; sec_content := [] |}
      else
        parse_loop rest secs
          {| sec_title := sec_title cur;
             sec_content := sec_content cur ++ line ++ str " " |}
  end.

(** [parse_sections]: the sections found are appended to
    [self.sections], and that list is returned. *)
Definition parse_sections (st : state) : list section * state :=
  let lines := split_char "010" (text_content st) in
  let '(secs, cur) :=
    parse_loop lines (sections st)
      {| sec_title := str "Introduction"; sec_content := [] |} in
  let secs' := if truthy (sec_content cur) then secs ++ [cur] else secs in
  (secs', {| pdf_path := pdf_path st;
             text_content := text_content st;
             sections := secs' |}).

End PDFExtractor.

(** ** [script_generator.py] *)

(** The three values the key ["character_action"] takes. *)
Inductive action : Type := greeting | explaining | concluding.

(** A scene: the dict appended to [self.scenes]. *)
Record scene : Type := mkScene {
  scene_id : nat;
  title : text;
  narration : text;
  duration : nat;
  image_prompt : text;
  character_action : action
}.

(** The dict [script_data] built by [save_script]. *)
Record script_data : Type := mkScript {
  script_title : text;
  total_duration : nat;
  scene_count : nat;
  script_scenes : list scene
}.

Module ScriptGenerator.

(** The fields of an instance. *)
Record state : Type := mkState {
  extractor : PDFExtractor.state;
  scenes : list scene
}.

(** [__init__] *)
Definition init (path : text) : state :=
  {| extractor := PDFExtractor.init path; scenes := [] |}.

(** The pattern [\[\d+\]]. *)
Definition citation_re : regex :=
  Cat (Chr "[") (Cat (Rep isdigit 1) (Chr "]")).

Definition not_close (c : ascii) : bool := negb (Ascii.eqb c ")").

(** The pattern [\([^)]*\d{4}[^)]*\)]. *)
Definition year_re : regex :=
  Cat (Chr "(")
    (Cat (Rep not_close 0)
      (Cat (times 4 (Cls isdigit))
        (Cat (Rep not_close 0) (Chr ")")))).

(** The pattern [et al\.?]. *)
Definition et_al_re : regex :=
  Cat (Chr "e") (Cat (Chr "t") (Cat (Chr " ") (Cat (Chr "a") (Cat (Chr "l")
    (Opt (Chr ".")))))).

Definition is_stop (c : ascii) : bool :=
  (Ascii.eqb c "." || Ascii.eqb c "!" || Ascii.eqb c "?")%bool.

(** The pattern [[.!?]+]. *)
Definition stop_re : regex := Rep is_stop 1.

Definition skip_words : list text := [str "figure"; str "table"; str "equation"].

(** [_summarize_content] *)
Definition _summarize_content (content : text) : text :=
  let content := re_sub citation_re [] content in
  let content := re_sub year_re [] content in
  let content := re_sub et_al_re (str "and colleagues") content in
  let sentences := re_split stop_re content in
  let clean_sentences :=
    filter
      (fun sentence =>
         ((20 <? length sentence) &&
          negb (existsb (fun skip => contains skip (lower sentence)) skip_words))%bool)
      (map strip (firstn 5 sentences)) in
  let summary := join (str ". ") clean_sentences in
  let summary :=
    if (truthy summary && negb (endswith (str ".") summary))%bool
    then summary ++ str "."
    else summary in
  firstn 300 summary.

(** [_generate_image_prompt] *)
Definition _generate_image_prompt (title content : text) : text :=
  let title_lower := lower title in
  let content_lower := lower content in
  if existsb (fun word => contains word title_lower)
       [str "introduction"; str "overview"]
  then str "Modern semiconductor wafer with GaN crystals, blue and purple color scheme, high-tech laboratory setting"
  else if contains (str "application") title_lower
  then str "Collage of modern electronics: smartphones, 5G towers, electric vehicles, solar panels, all highlighting GaN components"
  else if (contains (str "structure") title_lower
           || contains (str "architecture") title_lower)%bool
  then str "3D visualization of GaN HEMT structure showing layers: substrate, buffer, channel, barrier, with electron flow animation"
  else if (contains (str "performance") title_lower
           || contains (str "efficiency") title_lower)%bool
  then str "Performance graphs and charts showing GaN advantages, with glowing efficiency metrics, modern data visualization"
  else if contains (str "reliability") title_lower
  then str "Robust electronic component undergoing stress tests, showing durability and longevity, industrial testing environment"
  else if contains (str "biosensor") content_lower
  then str "Medical biosensor device with GaN chip, showing biological molecule detection, clean medical tech aesthetic"
  else if contains (str "power") content_lower
  then str "High-power electronic systems with GaN components, showing energy flow, industrial power electronics"
  else str "Advanced GaN semiconductor chip with intricate circuit patterns, blue LED illumination, futuristic technology".

(** The pattern [^\d+\.?\s*]. *)
Definition numbering_re : regex :=
  Cat (Rep isdigit 1) (Cat (Opt (Chr ".")) (Rep isspace 0)).

(** [_clean_title]; the pattern is anchored, so the substitution
    removes at most the match at the start of the title. *)
Definition _clean_title (title : text) : text :=
  let title :=
    match re_match numbering_re title with
    | Some rest => rest
    | None => title
    end in
  let words := split_ws title in
  let cleaned :=
    map (fun word =>
           if (isupper word && (3 <? length word))%bool
           then capitalize word else word)
        words in
  join (str " ") cleaned.

Definition intro_scene : scene :=
  {| scene_id := 1;
     title := str "Introduction to GaN Technology";
     narration := str "Welcome to our comprehensive overview of Gallium Nitride, or GaN technology. Today, we'll explore how GaN High Electron Mobility Transistors, or HEMTs, are revolutionizing high-frequency and high-power electronics.";
     duration := 8;
     image_prompt := str "A futuristic semiconductor chip with glowing blue circuits, representing GaN technology, modern tech aesthetic";
     character_action := greeting |}.

Definition conclusion_scene (id : nat) : scene :=
  {| scene_id := id;
     title := str "Conclusion";
     narration := str "GaN technology represents a significant advancement in semiconductor technology, enabling faster, more efficient, and more powerful electronic devices. From 5G communications to electric vehicles, GaN HEMTs are shaping the future of electronics.";
     duration := 8;
     image_prompt := str "A montage of modern applications: 5G towers, electric vehicles, renewable energy systems, all powered by GaN technology";
     character_action := concluding |}.

(** The scene built from a section and its summary. *)
Definition content_scene (id : nat) (s : section) (summary : text) : scene :=
  {| scene_id := id;
     title := _clean_title (sec_title s);
     narration := summary;
     duration := Nat.max 5 (length (split_ws summary) / 20);
     image_prompt := _generate_image_prompt (sec_title s) summary;
     character_action := explaining |}.

(** The loop of [generate_script] over [sections[:10]]: [id] is the
    variable [scene_id], [acc] is [self.scenes]. *)
Fixpoint content_loop (secs : list section) (id : nat) (acc : list scene)
    : nat * list scene :=
  match secs with
  | [] => (id, acc)
  | s :: rest =>
      if length (sec_content s) <? 100 then content_loop rest id acc
      else
        let summary := _summarize_content (sec_content s) in
        if negb (truthy summary) then content_loop rest id acc
        else content_loop rest (S id) (acc ++ [content_scene id s summary])
  end.

(** The part of [generate_script] that follows the extraction: what
    [self.scenes], here [scenes0], becomes for the sections [sections]. *)
Definition build_scenes (sections : list section) (scenes0 : list scene)
    : list scene :=
  let scenes1 := scenes0 ++ [intro_scene] in
  let '(id, scenes2) := content_loop (firstn 10 sections) 2 scenes1 in
  scenes2 ++ [conclusion_scene id].

(** [generate_script]: the value returned is [self.scenes], the list
    the instance keeps and extends at the next call. *)
Definition generate_script (r : pdf_read) (g : state) : list scene * state :=
  let '(_, ex) := PDFExtractor.extract_text r (extractor g) in
  let '(sections, ex) := PDFExtractor.parse_sections ex in
  let scenes' := build_scenes sections (scenes g) in
  (scenes', {| extractor := ex; scenes := scenes' |}).

(** [sum(scene["duration"] for scene in self.scenes)]: the running
    total, from 0, over the scenes in order. *)
Definition sum_durations (l : list scene) : nat :=
  fold_left (fun total sc => total + duration sc) l 0.

(** [save_script]: the script is generated first when [self.scenes] is
    empty; the value returned is the dict written to the file. *)
Definition save_script (r : pdf_read) (g : state) : script_data * state :=
  let g := if negb (truthy (scenes g)) then snd (generate_script r g) else g in
  ({| script_title := str "GaN Technology: A Comprehensive Overview";
      total_duration := sum_durations (scenes g);
      scene_count := length (scenes g);
      script_scenes := scenes g |}, g).

End ScriptGenerator.

(** ** Specification-side definitions *)

(** The texts a pattern describes. *)
Inductive matches : regex -> text -> Prop :=
| matches_eps : matches Eps []
| matches_chr : forall c, matches (Chr c) [c]
| matches_cls : forall (p : ascii -> bool) c, p c = true -> matches (Cls p) [c]
| matches_rep : forall (p : ascii -> bool) lo s,
    forallb p s = true -> lo <= length s -> matches (Rep p lo) s
| matches_opt_absent : forall r, matches (Opt r) []
| matches_opt_present : forall r s, matches r s -> matches (Opt r) s
| matches_cat : forall r1 r2 s1 s2,
    matches r1 s1 -> matches r2 s2 -> matches (Cat r1 r2) (s1 ++ s2).

(** A line of the form number, optional full stop, white space, capital
    letter: what the pattern [^\d+\.?\s+[A-Z]] asks of the start of a line. *)
Definition numbered_line (line : text) : Prop :=
  exists ds dot ws c rest,
    line = ds ++ dot ++ ws ++ c :: rest /\
    ds <> [] /\ forallb isdigit ds = true /\
    (dot = [] \/ dot = str ".") /\
    ws <> [] /\ forallb isspace ws = true /\
    is_upper c = true.

(** A line without any upper-case character. *)
Definition no_upper (line : text) : bool :=
  forallb (fun c => negb (cased_upper c)) line.

(** The lines that [parse_sections] adds to a section: the stripped
    lines that are neither empty nor headers, in order. *)
Definition kept_lines (lines : list text) : list text :=
  filter (fun line => negb (PDFExtractor._is_section_header line))
    (filter truthy (map strip lines)).

Definition content_lines (t : text) : list text :=
  kept_lines (split_char "010" t).

(** The sections a read gives on a new extractor. *)
Definition sections_of (path : text) (r : pdf_read) : list section :=
  fst (PDFExtractor.parse_sections
         (snd (PDFExtractor.extract_text r (PDFExtractor.init path)))).

(** A section that gives a content scene: its content has at least 100
    characters and its summary is not empty. *)
Definition qualifies (s : section) : bool :=
  ((100 <=? length (sec_content s)) &&
   truthy (ScriptGenerator._summarize_content (sec_content s)))%bool.

Definition is_content_scene (sc : scene) : bool :=
  match character_action sc with explaining => true | _ => false end.

(** The content scenes of a script: the scenes between the introduction
    and the conclusion carry the action [explaining]. *)
Definition content_scenes (l : list scene) : list scene :=
  filter is_content_scene l.

(** The scenes the loop of [generate_script] adds for a list of
    sections, the first of them numbered [id]. *)
Fixpoint content_batch (secs : list section) (id : nat) : list scene :=
  match secs with
  | [] => []
  | s :: rest =>
      if qualifies s
      then ScriptGenerator.content_scene id s
             (ScriptGenerator._summarize_content (sec_content s))
           :: content_batch rest (S id)
      else content_batch rest id
  end.

(** An extractor that holds the text [t] and no section yet. *)
Definition with_text (path t : text) : PDFExtractor.state :=
  {| PDFExtractor.pdf_path := path;
     PDFExtractor.text_content := t;
     PDFExtractor.sections := [] |}.

(** A page without text: nothing but white space. *)
Definition blank (page : text) : bool := forallb isspace page.

(** The bounds every scene is to respect. *)
Definition scene_ok (sc : scene) : Prop :=
  5 <= duration sc /\ length (narration sc) <= 300.

Definition long_line : text :=
  str "Gallium nitride transistors switch faster than silicon devices and waste far less energy as heat under load".

(** A read of one page: a header and a sentence. *)
Definition one_page_read : pdf_read :=
  {| pages_read := [str "DEVICES" ++ [ascii_of_N 10] ++ long_line];
     read_failed := false |}.

(** The same read, ended by an exception after that page. *)
Definition failed_after_page : pdf_read :=
  {| pages_read := pages_read one_page_read; read_failed := true |}.

(** A document of eleven sections: some words before the first header,
    then ten headed sections of one long sentence each. *)
Definition eleven_sections_page : text :=
  str "some words" ++ [ascii_of_N 10] ++
  concat (repeat (str "DEVICES" ++ [ascii_of_N 10] ++ long_line ++ [ascii_of_N 10]) 10).

Definition eleven_sections_read : pdf_read :=
  {| pages_read := [eleven_sections_page]; read_failed := false |}.

(** The stripped lines of a text that are not empty: the lines the loop
    of [parse_sections] looks at. *)
Definition stripped_lines (t : text) : list text :=
  filter truthy (map strip (split_char "010" t)).

(** Among them, the lines taken for headers. *)
Definition header_lines (t : text) : list text :=
  filter PDFExtractor._is_section_header (stripped_lines t).

(** A text that ends with a space. *)
Definition ends_with_space (s : text) : Prop :=
  exists body, s = body ++ str " ".

(** ** [get_summary] *)

(** [l[:n]] for an integer [n]: a negative bound counts from the end. *)
Definition slice_to {A : Type} (n : Z) (l : list A) : list A :=
  if (n <? 0)%Z
  then firstn (length l - Z.to_nat (- n)) l
  else firstn (Z.to_nat n) l.

(** [sorted(sections, key=lambda x: len(x["content"]), reverse=True)]:
    the sort is stable, so its result is the one list that holds the same
    sections, longest content first, the sections of equal length in the
    order they had.  It is computed here by insertion from the right: a
    section goes before the first section that is not longer than it. *)
Fixpoint insert_by_length (x : section) (l : list section) : list section :=
  match l with
  | [] => [x]
  | y :: r =>
      if length (sec_content x) <? length (sec_content y)
      then y :: insert_by_length x r
      else x :: l
  end.

Definition sorted_by_length (l : list section) : list section :=
  fold_right insert_by_length [] l.

(** [get_summary]: the text is extracted and parsed first when the
    instance has no section; [self.sections] itself is not reordered. *)
Definition get_summary (r : pdf_read) (max_sections : Z)
    (st : PDFExtractor.state) : list section * PDFExtractor.state :=
  let st :=
    if negb (truthy (PDFExtractor.sections st))
    then snd (PDFExtractor.parse_sections (snd (PDFExtractor.extract_text r st)))
    else st in
  (slice_to max_sections (sorted_by_length (PDFExtractor.sections st)), st).

(** One content at least as long as the next. *)
Definition longer_first (a b : section) : Prop :=
  length (sec_content b) <= length (sec_content a).

Definition has_length (k : nat) (s : section) : bool :=
  length (sec_content s) =? k.

(** A word: a text that is not empty and has no white space. *)
Definition is_word (w : text) : Prop :=
  w <> [] /\ Forall (fun c => isspace c = false) w.

(** ** [video_generator.py]: the files of a scene

    The renderer writes, for every scene, an image, a narration, a
    picture of the character and a clip, under names built from the id of
    the scene.  The drawing, the speech synthesis and the encoding are
    calls into libraries and are left out; the paths are embedded. *)

Module VideoGenerator.

(** [self.temp_dir], as [__init__] sets it. *)
Definition temp_dir : text := str "temp_video_assets".

(** [f"{n}"] for an integer that is not negative: its decimal digits. *)
Definition format_int (n : nat) : text :=
  str (DecimalString.NilEmpty.string_of_uint (Nat.to_uint n)).

(** [os.path.join(a, b)]: an absolute [b] replaces [a]; else [b] follows
    [a], after a separator unless [a] is empty or ends with one. *)
Definition path_join (a b : text) : text :=
  if startswith (str "/") b then b
  else if (negb (truthy a) || endswith (str "/") a)%bool then a ++ b
  else a ++ str "/" ++ b.

(** The four files of a scene. *)
Inductive asset : Type := image | audio | character | clip.

Definition asset_name (k : asset) (sc : scene) : text :=
  match k with
  | image => str "scene_" ++ format_int (scene_id sc) ++ str ".png"
  | audio => str "audio_" ++ format_int (scene_id sc) ++ str ".mp3"
  | character => str "char_" ++ format_int (scene_id sc) ++ str ".png"
  | clip => str "scene_" ++ format_int (scene_id sc) ++ str ".mp4"
  end.

(** The path of a file of a scene in the directory [dir]:
    [image_path] of [generate_scene_image], [audio_path] of
    [generate_audio], [char_path] and [scene_path] of
    [create_scene_video]. *)
Definition asset_path (dir : text) (k : asset) (sc : scene) : text :=
  path_join dir (asset_name k sc).

End VideoGenerator.

(** The scenes the automated run renders: [generate_video_auto.py] keeps
    the first three scenes of the script it has just saved and loaded. *)
Definition preview_scenes (script : list scene) : list scene :=
  firstn 3 script.

Definition is_concluding (sc : scene) : bool :=
  match character_action sc with concluding => true | _ => false end.

(** All the files the renderer writes for a script, in the directory
    [dir]. *)
Definition script_assets (dir : text) (script : list scene) : list text :=
  flat_map
    (fun sc =>
       map (fun k => VideoGenerator.asset_path dir k sc)
         [VideoGenerator.image; VideoGenerator.audio;
          VideoGenerator.character; VideoGenerator.clip])
    script.

(** ** [create_demo_video.py]: the frames of the demo *)

(** [f"{i:03d}"]: the decimal digits, padded with zeros to three. *)
Definition format_int3 (i : nat) : text :=
  let digits := VideoGenerator.format_int i in
  repeat "0"%char (3 - length digits) ++ digits.

Definition frame_name (i : nat) : text :=
  str "demo_frames/frame_" ++ format_int3 i ++ str ".png".

(** The frames [create_demo_frames] saves: one for each of the first
    three scenes of the script, numbered from 0 as [enumerate] does. *)
Definition frames_written (script : list scene) : list text :=
  let scenes := firstn 3 script in
  map (fun numbered => frame_name (fst numbered))
    (combine (seq 0 (length scenes)) scenes).

(** The frames [create_animated_gif] opens: those numbered [range(3)]. *)
Definition frames_read : list text := map frame_name (seq 0 3).

(** ** The pattern matcher against the texts a pattern describes *)

Section Matcher.

Context {A : Type}.

Lemma rep_go_sound (p : ascii -> bool) (s : text) :
  forall lo (k : text -> option A) a,
    rep_go p lo s k = Some a ->
    exists pre rest,
      s = pre ++ rest /\ forallb p pre = true /\ lo <= length pre /\
      k rest = Some a.
Proof.
  induction s as [|c t IH]; intros lo k a H; simpl in H.
  - destruct lo; [|discriminate].
    exists [], []. repeat split; auto.
  - assert (Hstop : match lo with 0 => k (c :: t) | S _ => None end = Some a ->
                    exists pre rest,
                      c :: t = pre ++ rest /\ forallb p pre = true /\
                      lo <= length pre /\ k rest = Some a).
    { intros Hs. destruct lo; [|discriminate].
      exists [], (c :: t). repeat split; auto. }
    destruct (p c) eqn:Hp; [|auto].
    destruct (rep_go p (pred lo) t k) as [a'|] eqn:Hrec; [|auto].
    injection H as ->.
    destruct (IH _ _ _ Hrec) as (pre & rest & -> & Hall & Hlen & Hk).
    exists (c :: pre), rest. simpl. rewrite Hp, Hall.
    repeat split; auto. lia.
Qed.

Lemma rep_go_complete (p : ascii -> bool) (pre : text) :
  forall lo rest (k : text -> option A),
    forallb p pre = true -> lo <= length pre -> k rest <> None ->
    rep_go p lo (pre ++ rest) k <> None.
Proof.
  induction pre as [|c pre IH]; intros lo rest k Hall Hlen Hk.
  - simpl in Hlen. assert (lo = 0) as -> by lia. simpl.
    destruct rest as [|c t]; simpl; auto.
    destruct (p c); auto.
    destruct (rep_go p 0 t k); auto. discriminate.
  - simpl in Hall. apply andb_true_iff in Hall as [Hp Hall].
    simpl. rewrite Hp.
    assert (Hrec : rep_go p (pred lo) (pre ++ rest) k <> None).
    { apply IH; auto. simpl in Hlen. lia. }
    destruct (rep_go p (pred lo) (pre ++ rest) k); [discriminate|].
    contradiction.
Qed.

End Matcher.

Lemma re_go_sound (r : regex) :
  forall (A : Type) s (k : text -> option A) a,
    re_go r s k = Some a ->
    exists pre rest, s = pre ++ rest /\ matches r pre /\ k rest = Some a.
Proof.
  induction r as [|c|p|p lo|r IH|r1 IH1 r2 IH2]; intros A s k a H; simpl in H.
  - exists [], s. repeat split; auto. constructor.
  - destruct s as [|x t]; [discriminate|].
    destruct (Ascii.eqb x c) eqn:E; [|discriminate].
    apply Ascii.eqb_eq in E as ->.
    exists [c], t. repeat split; auto. constructor.
  - destruct s as [|x t]; [discriminate|].
    destruct (p x) eqn:E; [|discriminate].
    exists [x], t. repeat split; auto. now constructor.
  - destruct (rep_go_sound _ _ _ _ _ H) as (pre & rest & -> & Hall & Hlen & Hk).
    exists pre, rest. repeat split; auto. now constructor.
  - destruct (re_go r s k) as [a'|] eqn:E.
    + injection H as ->.
      destruct (IH _ _ _ _ E) as (pre & rest & -> & Hm & Hk).
      exists pre, rest. repeat split; auto. now apply matches_opt_present.
    + exists [], s. repeat split; auto. constructor.
  - destruct (IH1 _ _ _ _ H) as (pre1 & rest1 & -> & Hm1 & H1).
    destruct (IH2 _ _ _ _ H1) as (pre2 & rest2 & -> & Hm2 & H2).
    exists (pre1 ++ pre2), rest2. rewrite <- app_assoc.
    repeat split; auto. now constructor.
Qed.

Lemma re_go_complete (r : regex) :
  forall pre, matches r pre ->
  forall (A : Type) rest (k : text -> option A),
    k rest <> None -> re_go r (pre ++ rest) k <> None.
Proof.
  intros pre Hm. induction Hm; intros A rest k Hk; simpl.
  - assumption.
  - now rewrite Ascii.eqb_refl.
  - now rewrite H.
  - now apply rep_go_complete.
  - destruct (re_go r rest k); [discriminate | assumption].
  - specialize (IHHm A rest k Hk).
    destruct (re_go r (s ++ rest) k); [discriminate | contradiction].
  - rewrite <- app_assoc. apply IHHm1. now apply IHHm2.
Qed.

(** [re.match] succeeds exactly on the texts that start with a text the
    pattern describes. *)
Lemma re_match_iff (r : regex) (s : text) :
  re_match r s <> None <-> exists pre rest, s = pre ++ rest /\ matches r pre.
Proof.
  unfold re_match. split.
  - intros H. destruct (re_go r s (fun rest => Some rest)) as [a|] eqn:E;
      [|contradiction].
    destruct (re_go_sound _ _ _ _ _ E) as (pre & rest & -> & Hm & _).
    now exists pre, rest.
  - intros (pre & rest & -> & Hm).
    apply re_go_complete; [assumption | discriminate].
Qed.

(** ** Header detection *)

Lemma no_upper_existsb (line : text) :
  no_upper line = true -> existsb cased_upper line = false.
Proof.
  unfold no_upper. induction line as [|c t IH]; simpl; [reflexivity|].
  intros H. apply andb_true_iff in H as [Hc Ht].
  apply negb_true_iff in Hc. rewrite Hc. now apply IH.
Qed.

Lemma no_upper_In (line : text) (c : ascii) :
  no_upper line = true -> In c line -> is_upper c = false.
Proof.
  unfold no_upper. intros H Hin.
  rewrite forallb_forall in H. apply H, negb_true_iff in Hin.
  unfold cased_upper in Hin.
  now destruct (is_upper c).
Qed.

(** A text the numbered-header pattern describes ends with a capital. *)
Lemma numbered_re_capital (pre : text) :
  matches PDFExtractor.numbered_re pre ->
  exists front c, pre = front ++ [c] /\ is_upper c = true.
Proof.
  unfold PDFExtractor.numbered_re. intros H.
  inversion H as [| | | | | |r1 r2 s1 s234 _ H234]; subst.
  inversion H234 as [| | | | | |r1 r2 s2 s34 _ H34]; subst.
  inversion H34 as [| | | | | |r1 r2 s3 s4 _ H4]; subst.
  inversion H4 as [| |p c Hc| | | |]; subst.
  exists (s1 ++ s2 ++ s3), c. now rewrite <- !app_assoc.
Qed.

Lemma numbered_line_matches (line : text) :
  numbered_line line -> re_match PDFExtractor.numbered_re line <> None.
Proof.
  intros (ds & dot & ws & c & rest & -> & Hds & Hdig & Hdot & Hws & Hsp & Hc).
  apply re_match_iff.
  exists (ds ++ dot ++ ws ++ [c]), rest. split.
  - now rewrite <- !app_assoc.
  - unfold PDFExtractor.numbered_re.
    apply matches_cat.
    + apply matches_rep; [assumption|]. destruct ds; [contradiction | simpl; lia].
    + apply matches_cat.
      * destruct Hdot as [-> | ->];
          [apply matches_opt_absent | apply matches_opt_present, matches_chr].
      * apply matches_cat.
        -- apply matches_rep; [assumption|].
           destruct ws; [contradiction | simpl; lia].
        -- now apply matches_cls.
Qed.

(** The lines [re.match] accepts for the numbered-header pattern are
    exactly the numbered lines. *)
Lemma matches_numbered_line (line : text) :
  re_match PDFExtractor.numbered_re line <> None -> numbered_line line.
Proof.
  intros H. apply re_match_iff in H as (pre & rest & -> & Hm).
  unfold PDFExtractor.numbered_re in Hm.
  inversion Hm as [| | | | | |r1 r2 s1 s234 H1 H234]; subst.
  inversion H234 as [| | | | | |r1 r2 s2 s34 H2 H34]; subst.
  inversion H34 as [| | | | | |r1 r2 s3 s4 H3 H4]; subst.
  inversion H4 as [| |p c Hc| | | |]; subst.
  inversion H1 as [| | |p lo s Hall1 Hlen1| | |]; subst.
  inversion H3 as [| | |p lo s Hall3 Hlen3| | |]; subst.
  exists s1, s2, s3, c, rest. repeat split; auto.
  - now rewrite <- !app_assoc.
  - intros ->. simpl in Hlen1. lia.
  - inversion H2 as [| | | |r|r s Hd|]; subst; [now left | right].
    now inversion Hd.
  - intros ->. simpl in Hlen3. lia.
Qed.

(** C7: every line of the form number, optional full stop, white space,
    capital letter (the lines the pattern [^\d+\.?\s+[A-Z]] matches, such
    as ["3. Overview"]) is classified as a section header. *)
Theorem numbered_line_is_header (line : text) :
  numbered_line line -> PDFExtractor._is_section_header line = true.
Proof.
  intros H. apply numbered_line_matches in H.
  unfold PDFExtractor._is_section_header.
  destruct (isupper line && (length line <? 100))%bool; [reflexivity|].
  destruct (re_match PDFExtractor.numbered_re line); [reflexivity|].
  contradiction.
Qed.

Lemma numbered_line_is_header_witness :
  numbered_line (str "3. Overview") /\
  PDFExtractor._is_section_header (str "3. Overview") = true.
Proof.
  assert (H : numbered_line (str "3. Overview")).
  { exists (str "3"), (str "."), (str " "), "O"%char, (str "verview").
    repeat split; try reflexivity; try discriminate. now right. }
  split; [exact H | exact (numbered_line_is_header _ H)].
Defined.

(** C8: a line of fewer than 100 characters without any upper-case
    character (A-Z or an upper-case letter above U+007F), in which no
    header keyword occurs when case is ignored, is not classified as a
    section header. *)
Theorem lower_case_line_not_header (line : text) :
  length line < 100 ->
  no_upper line = true ->
  (forall keyword, In keyword PDFExtractor.header_keywords ->
     contains (lower keyword) (lower line) = false) ->
  PDFExtractor._is_section_header line = false.
Proof.
  intros _ Hlow Hkw. unfold PDFExtractor._is_section_header.
  unfold isupper. rewrite (no_upper_existsb _ Hlow), !andb_false_l.
  destruct (re_match PDFExtractor.numbered_re line) as [rest|] eqn:E.
  - exfalso.
    assert (Hm : re_match PDFExtractor.numbered_re line <> None)
      by (rewrite E; discriminate).
    apply re_match_iff in Hm as (pre & rest' & -> & Hm).
    apply numbered_re_capital in Hm as (front & c & -> & Hc).
    rewrite (no_upper_In _ c Hlow) in Hc; [discriminate|].
    rewrite !in_app_iff. left. right. now left.
  - cbn [truthy_opt]. apply not_true_is_false. intros Hex.
    apply existsb_exists in Hex as (kw & Hin & Hc).
    rewrite (Hkw _ Hin) in Hc. discriminate.
Qed.

Lemma lower_case_line_not_header_witness :
  PDFExtractor._is_section_header (str "gallium nitride on silicon") = false.
Proof.
  apply lower_case_line_not_header.
  - vm_compute. lia.
  - reflexivity.
  - intros keyword Hin. simpl in Hin.
    repeat (destruct Hin as [<- | Hin]; [reflexivity|]). contradiction.
Defined.

(** ** The section splitter *)

(** Appending the current section when its content is not empty adds its
    content to the concatenation, be it empty or not. *)
Lemma flush_content (secs : list section) (cur : section) :
  concat (map sec_content
            (if truthy (sec_content cur) then secs ++ [cur] else secs)) =
  concat (map sec_content secs) ++ sec_content cur.
Proof.
  destruct (sec_content cur) eqn:E; simpl.
  - now rewrite app_nil_r.
  - now rewrite map_app, concat_app; simpl; rewrite E, app_nil_r.
Qed.

Lemma parse_loop_content (lines : list text) :
  forall secs cur,
    concat (map sec_content (fst (PDFExtractor.parse_loop lines secs cur))) ++
    sec_content (snd (PDFExtractor.parse_loop lines secs cur)) =
    concat (map sec_content secs) ++ sec_content cur ++
    concat (map (fun line => line ++ str " ") (kept_lines lines)).
Proof.
  unfold kept_lines.
  induction lines as [|raw rest IH]; intros secs cur; simpl.
  - now rewrite app_nil_r.
  - destruct (truthy (strip raw)) eqn:Hne; simpl.
    + destruct (PDFExtractor._is_section_header (strip raw)) eqn:Hh; simpl.
      * rewrite IH, flush_content. simpl. now rewrite <- app_assoc.
      * rewrite IH. simpl. now rewrite <- !app_assoc.
    + apply IH.
Qed.

(** C2: on a new extractor, the contents of the sections that
    [parse_sections] returns, concatenated in order, are exactly the lines
    of the text that are neither blank nor headers, each stripped and
    followed by one space, in the order of the text. *)
Theorem parse_sections_recovers_content (path t : text) :
  concat (map sec_content
            (fst (PDFExtractor.parse_sections
                    {| PDFExtractor.pdf_path := path;
                       PDFExtractor.text_content := t;
                       PDFExtractor.sections := [] |}))) =
  concat (map (fun line => line ++ str " ") (content_lines t)).
Proof.
  unfold PDFExtractor.parse_sections, content_lines.
  cbn [PDFExtractor.text_content PDFExtractor.sections].
  pose proof (parse_loop_content (split_char "010" t) []
                {| sec_title := str "Introduction"; sec_content := [] |}) as H.
  destruct (PDFExtractor.parse_loop (split_char "010" t) []
              {| sec_title := str "Introduction"; sec_content := [] |})
    as [secs cur].
  cbn [fst snd] in *. rewrite flush_content, H. reflexivity.
Qed.

(** [parse_sections] extends [self.sections]: what it returns is the old
    list followed by the sections of the text. *)
Lemma parse_loop_extends (lines : list text) :
  forall secs cur,
    PDFExtractor.parse_loop lines secs cur =
    (secs ++ fst (PDFExtractor.parse_loop lines [] cur),
     snd (PDFExtractor.parse_loop lines [] cur)).
Proof.
  induction lines as [|raw rest IH]; intros secs cur; simpl.
  - now rewrite app_nil_r.
  - destruct (truthy (strip raw)); simpl; [|apply IH].
    destruct (PDFExtractor._is_section_header (strip raw)); [|apply IH].
    destruct (truthy (sec_content cur)).
    + rewrite IH. rewrite (IH ([] ++ [cur])). simpl.
      now rewrite <- app_assoc.
    + apply IH.
Qed.

Lemma parse_sections_extends (st : PDFExtractor.state) :
  fst (PDFExtractor.parse_sections st) =
  PDFExtractor.sections st ++
  fst (PDFExtractor.parse_sections
         (with_text (PDFExtractor.pdf_path st) (PDFExtractor.text_content st))).
Proof.
  unfold PDFExtractor.parse_sections, with_text.
  cbn [PDFExtractor.text_content PDFExtractor.sections].
  rewrite parse_loop_extends.
  destruct (PDFExtractor.parse_loop _ [] _) as [secs cur].
  cbn [fst snd]. destruct (truthy (sec_content cur)); cbn [fst app].
  - now rewrite app_assoc.
  - reflexivity.
Qed.

Lemma parse_sections_state (st : PDFExtractor.state) :
  snd (PDFExtractor.parse_sections st) =
  {| PDFExtractor.pdf_path := PDFExtractor.pdf_path st;
     PDFExtractor.text_content := PDFExtractor.text_content st;
     PDFExtractor.sections := fst (PDFExtractor.parse_sections st) |}.
Proof.
  unfold PDFExtractor.parse_sections.
  destruct (PDFExtractor.parse_loop _ _ _) as [secs cur]. reflexivity.
Qed.

(** ** The script builder *)

Lemma content_loop_batch (secs : list section) :
  forall id acc,
    ScriptGenerator.content_loop secs id acc =
    (id + length (content_batch secs id), acc ++ content_batch secs id).
Proof.
  induction secs as [|s rest IH]; intros id acc; simpl.
  - now rewrite Nat.add_0_r, app_nil_r.
  - unfold qualifies. rewrite Nat.ltb_antisym.
    destruct (100 <=? length (sec_content s)); simpl; [|apply IH].
    destruct (truthy (ScriptGenerator._summarize_content (sec_content s)));
      simpl; [|apply IH].
    rewrite IH, <- app_assoc. simpl. f_equal. lia.
Qed.

Lemma build_scenes_shape (secs : list section) (scenes0 : list scene) :
  ScriptGenerator.build_scenes secs scenes0 =
  scenes0 ++
  ScriptGenerator.intro_scene ::
  content_batch (firstn 10 secs) 2 ++
  [ScriptGenerator.conclusion_scene
     (2 + length (content_batch (firstn 10 secs) 2))].
Proof.
  unfold ScriptGenerator.build_scenes. rewrite content_loop_batch.
  now rewrite <- !app_assoc.
Qed.

Lemma generate_script_scenes (r : pdf_read) (g : ScriptGenerator.state) :
  fst (ScriptGenerator.generate_script r g) =
  ScriptGenerator.build_scenes
    (fst (PDFExtractor.parse_sections
            (snd (PDFExtractor.extract_text r (ScriptGenerator.extractor g)))))
    (ScriptGenerator.scenes g).
Proof.
  unfold ScriptGenerator.generate_script.
  destruct (PDFExtractor.extract_text r (ScriptGenerator.extractor g)) as [t ex].
  cbn [snd].
  destruct (PDFExtractor.parse_sections ex) as [secs ex']. reflexivity.
Qed.

Lemma generate_script_state (r : pdf_read) (g : ScriptGenerator.state) :
  ScriptGenerator.scenes (snd (ScriptGenerator.generate_script r g)) =
  fst (ScriptGenerator.generate_script r g).
Proof.
  unfold ScriptGenerator.generate_script.
  destruct (PDFExtractor.extract_text r (ScriptGenerator.extractor g)) as [t ex].
  destruct (PDFExtractor.parse_sections ex) as [secs ex']. reflexivity.
Qed.

Lemma content_batch_length (secs : list section) :
  forall id, length (content_batch secs id) = length (filter qualifies secs).
Proof.
  induction secs as [|s rest IH]; intros id; simpl; [reflexivity|].
  destruct (qualifies s); simpl; now rewrite IH.
Qed.

Lemma content_batch_ids (secs : list section) :
  forall id,
    map scene_id (content_batch secs id) =
    seq id (length (content_batch secs id)).
Proof.
  induction secs as [|s rest IH]; intros id; simpl; [reflexivity|].
  destruct (qualifies s); simpl; now rewrite <- IH.
Qed.

Lemma content_batch_explaining (secs : list section) :
  forall id, content_scenes (content_batch secs id) = content_batch secs id.
Proof.
  induction secs as [|s rest IH]; intros id; simpl; [reflexivity|].
  destruct (qualifies s); simpl; now rewrite IH.
Qed.

Lemma content_scene_ok (id : nat) (s : section) (summary : text) :
  length summary <= 300 -> scene_ok (ScriptGenerator.content_scene id s summary).
Proof.
  intros H. split; [apply Nat.le_max_l | exact H].
Qed.

Lemma summary_length (content : text) :
  length (ScriptGenerator._summarize_content content) <= 300.
Proof. unfold ScriptGenerator._summarize_content. apply firstn_le_length. Qed.

Lemma content_batch_ok (secs : list section) :
  forall id, Forall scene_ok (content_batch secs id).
Proof.
  induction secs as [|s rest IH]; intros id; simpl; [constructor|].
  destruct (qualifies s); [|apply IH].
  constructor; [|apply IH]. apply content_scene_ok, summary_length.
Qed.

Lemma intro_scene_ok : scene_ok ScriptGenerator.intro_scene.
Proof. split; vm_compute; lia. Qed.

Lemma conclusion_scene_ok (id : nat) :
  scene_ok (ScriptGenerator.conclusion_scene id).
Proof. split; vm_compute; lia. Qed.

(** One call keeps the bounds of the scenes already there. *)
Lemma build_scenes_ok (secs : list section) (scenes0 : list scene) :
  Forall scene_ok scenes0 ->
  Forall scene_ok (ScriptGenerator.build_scenes secs scenes0).
Proof.
  intros H. rewrite build_scenes_shape.
  apply Forall_app. split; [assumption|].
  constructor; [apply intro_scene_ok|].
  apply Forall_app. split; [apply content_batch_ok|].
  constructor; [apply conclusion_scene_ok | constructor].
Qed.

(** C3: every scene of the script a new generator produces, the
    introduction, the content scenes and the conclusion, lasts at least 5
    seconds and has a narration of at most 300 characters. *)
Theorem generated_scenes_bounded (path : text) (r : pdf_read) :
  Forall scene_ok
    (fst (ScriptGenerator.generate_script r (ScriptGenerator.init path))).
Proof.
  rewrite generate_script_scenes. apply build_scenes_ok. constructor.
Qed.

Lemma seq_sorted (n : nat) : forall a, StronglySorted lt (seq a n).
Proof.
  induction n as [|n IH]; intros a; simpl; constructor; [apply IH|].
  apply Forall_forall. intros x Hx. apply in_seq in Hx. lia.
Qed.

Lemma build_scenes_ids (secs : list section) :
  map scene_id (ScriptGenerator.build_scenes secs []) =
  seq 1 (length (ScriptGenerator.build_scenes secs [])).
Proof.
  rewrite build_scenes_shape. cbn [app map length ScriptGenerator.intro_scene scene_id].
  rewrite map_app, length_app, content_batch_ids.
  cbn [map length ScriptGenerator.conclusion_scene scene_id seq].
  now rewrite Nat.add_1_r, seq_S.
Qed.

(** C6: in the script a new generator produces, the scene ids are the
    consecutive integers from 1 on, hence unique and strictly ascending,
    and every duration is positive. *)
Theorem generated_ids_consecutive (path : text) (r : pdf_read) :
  let script :=
    fst (ScriptGenerator.generate_script r (ScriptGenerator.init path)) in
  map scene_id script = seq 1 (length script) /\
  NoDup (map scene_id script) /\
  StronglySorted lt (map scene_id script) /\
  Forall (fun sc => 0 < duration sc) script.
Proof.
  cbv zeta. rewrite generate_script_scenes.
  cbn [ScriptGenerator.init ScriptGenerator.scenes].
  rewrite build_scenes_ids. repeat split.
  - apply seq_NoDup.
  - apply seq_sorted.
  - eapply Forall_impl; [|apply build_scenes_ok; constructor].
    intros sc [Hd _]. lia.
Qed.

(** The script builder looks at the first ten sections only, whatever
    their length: the content scenes are those of the sections among
    these ten whose content has at least 100 characters and whose summary
    is not empty. *)
Lemma build_scenes_content_count (secs : list section) :
  length (content_scenes (ScriptGenerator.build_scenes secs [])) =
  length (filter qualifies (firstn 10 secs)).
Proof.
  rewrite build_scenes_shape. unfold content_scenes.
  cbn [app filter is_content_scene ScriptGenerator.intro_scene character_action].
  rewrite filter_app.
  cbn [filter is_content_scene ScriptGenerator.conclusion_scene character_action].
  rewrite app_nil_r.
  fold (content_scenes (content_batch (firstn 10 secs) 2)).
  now rewrite content_batch_explaining, content_batch_length.
Qed.

(** C1, as the code has it: the number of content scenes is the number of
    sections, among the first 10 sections, whose content has at least 100
    characters and whose summary is not empty; this holds for every
    sequence of sections and for the script of a new generator. *)
Theorem content_scene_count (path : text) (r : pdf_read) (secs : list section) :
  length (content_scenes (ScriptGenerator.build_scenes secs [])) =
    length (filter qualifies (firstn 10 secs)) /\
  length (content_scenes
            (fst (ScriptGenerator.generate_script r (ScriptGenerator.init path)))) =
    length (filter qualifies (firstn 10 (sections_of path r))).
Proof.
  split; [apply build_scenes_content_count|].
  rewrite generate_script_scenes. apply build_scenes_content_count.
Qed.

(** C1, as stated, fails: of eleven sections, the first one short and the
    next ten long, ten have a content of at least 100 characters and a
    summary, yet the script has nine content scenes. *)
Lemma content_scene_count_not_min :
  let count :=
    length (content_scenes
              (fst (ScriptGenerator.generate_script eleven_sections_read
                      (ScriptGenerator.init (str "doc.pdf"))))) in
  let qualifying :=
    length (filter qualifies
              (sections_of (str "doc.pdf") eleven_sections_read)) in
  count = 9 /\ qualifying = 10 /\ count <> Nat.min 10 qualifying.
Proof. vm_compute. repeat split. discriminate. Qed.

(** ** A document without text *)

Lemma lstrip_blank (s : text) : blank s = true -> lstrip s = [].
Proof.
  unfold blank. induction s as [|c t IH]; simpl; [reflexivity|].
  intros H. apply andb_true_iff in H as [Hc Ht]. rewrite Hc. now apply IH.
Qed.

Lemma strip_blank (s : text) : blank s = true -> strip s = [].
Proof. intros H. unfold strip. now rewrite lstrip_blank. Qed.

Lemma split_char_blank (sep : ascii) (t : text) :
  blank t = true -> Forall (fun line => blank line = true) (split_char sep t).
Proof.
  unfold blank. induction t as [|c t IH]; simpl; intros H.
  - repeat constructor.
  - apply andb_true_iff in H as [Hc Ht]. specialize (IH Ht).
    destruct (Ascii.eqb c sep).
    + constructor; [reflexivity | assumption].
    + destruct (split_char sep t) as [|h rest].
      * repeat constructor. simpl. now rewrite Hc.
      * inversion IH; subst. constructor; [|assumption].
        simpl. now rewrite Hc.
Qed.

Lemma parse_loop_blank (lines : list text) :
  Forall (fun line => blank line = true) lines ->
  forall secs cur, PDFExtractor.parse_loop lines secs cur = (secs, cur).
Proof.
  induction 1 as [|raw rest Hraw _ IH]; intros secs cur; simpl; [reflexivity|].
  rewrite (strip_blank _ Hraw). simpl. apply IH.
Qed.

Lemma blank_text_no_section (path t : text) :
  blank t = true -> fst (PDFExtractor.parse_sections (with_text path t)) = [].
Proof.
  intros H. unfold PDFExtractor.parse_sections, with_text.
  cbn [PDFExtractor.text_content PDFExtractor.sections].
  rewrite parse_loop_blank by now apply split_char_blank.
  reflexivity.
Qed.

Lemma extract_text_blank (pages : list text) :
  forallb blank pages = true ->
  forall acc, blank acc = true ->
    blank (fold_left (fun acc page => acc ++ page ++ str (String "010" EmptyString))
             pages acc) = true.
Proof.
  unfold blank.
  induction pages as [|page rest IH]; simpl; intros H acc Hacc; [assumption|].
  apply andb_true_iff in H as [Hp Hr]. apply IH; [assumption|].
  rewrite !forallb_app, Hacc, Hp. reflexivity.
Qed.

Lemma sections_of_blank (path : text) (r : pdf_read) :
  forallb blank (pages_read r) = true -> sections_of path r = [].
Proof.
  intros H. unfold sections_of, PDFExtractor.extract_text, PDFExtractor.init.
  cbn [snd PDFExtractor.text_content PDFExtractor.sections PDFExtractor.pdf_path].
  apply (blank_text_no_section path).
  now apply extract_text_blank.
Qed.

Lemma sum_durations_from (l : list scene) :
  forall a,
    fold_left (fun total sc => total + duration sc) l a =
    a + list_sum (map duration l).
Proof.
  induction l as [|sc l IH]; intros a; simpl; [lia|].
  rewrite IH. lia.
Qed.

(** C5: in the record [save_script] returns, generated on the spot when
    the instance has no scene yet, [total_duration] is the sum of the
    durations of the scenes of the record, and [scene_count] is their
    number. *)
Theorem save_script_totals (r : pdf_read) (g : ScriptGenerator.state) :
  let data := fst (ScriptGenerator.save_script r g) in
  total_duration data = list_sum (map duration (script_scenes data)) /\
  scene_count data = length (script_scenes data) /\
  script_scenes data = ScriptGenerator.scenes (snd (ScriptGenerator.save_script r g)).
Proof.
  unfold ScriptGenerator.save_script. cbn [fst snd total_duration scene_count script_scenes].
  repeat split. unfold ScriptGenerator.sum_durations.
  now rewrite sum_durations_from.
Qed.

(** C4, as the code has it: when no page read has any text, because the
    read failed before any page was read or because every page read is
    blank, the script of a new generator has exactly two scenes, the
    fixed introduction and the fixed conclusion, and the record saved
    from it counts 2 scenes and 16 seconds. *)
Theorem empty_text_two_scenes (path : text) (r r' : pdf_read) :
  forallb blank (pages_read r) = true ->
  let run := ScriptGenerator.generate_script r (ScriptGenerator.init path) in
  let data := fst (ScriptGenerator.save_script r' (snd run)) in
  fst run = [ScriptGenerator.intro_scene; ScriptGenerator.conclusion_scene 2] /\
  script_scenes data = fst run /\
  scene_count data = 2 /\
  total_duration data = 16.
Proof.
  intros H. cbv zeta.
  assert (Hrun : fst (ScriptGenerator.generate_script r (ScriptGenerator.init path))
                 = [ScriptGenerator.intro_scene; ScriptGenerator.conclusion_scene 2]).
  { rewrite generate_script_scenes.
    cbn [ScriptGenerator.init ScriptGenerator.extractor ScriptGenerator.scenes].
    fold (sections_of path r). now rewrite sections_of_blank. }
  pose proof (generate_script_state r (ScriptGenerator.init path)) as Hst.
  rewrite Hrun in Hst. unfold ScriptGenerator.save_script.
  rewrite Hst. cbn [truthy negb fst script_scenes scene_count total_duration].
  rewrite Hst, Hrun. repeat split.
Qed.

Lemma empty_text_two_scenes_witness :
  let failed := {| pages_read := []; read_failed := true |} in
  let run :=
    ScriptGenerator.generate_script failed (ScriptGenerator.init (str "doc.pdf")) in
  let data := fst (ScriptGenerator.save_script failed (snd run)) in
  fst run = [ScriptGenerator.intro_scene; ScriptGenerator.conclusion_scene 2] /\
  script_scenes data = fst run /\
  scene_count data = 2 /\
  total_duration data = 16.
Proof.
  exact (empty_text_two_scenes (str "doc.pdf")
           {| pages_read := []; read_failed := true |}
           {| pages_read := []; read_failed := true |} eq_refl).
Defined.

(** ** Runs of the script builder *)

(** C10: [generate_script] extends the scenes of the instance: a second
    call returns the scenes of the first call followed by a new
    introduction, new content scenes and a new conclusion, so the result
    differs from the first one and holds a scene id twice.  In the same
    way a second [parse_sections] returns the sections of the first call
    followed by the sections of the text, once more. *)
Theorem second_call_accumulates
    (r1 r2 : pdf_read) (g : ScriptGenerator.state) (st : PDFExtractor.state) :
  let first := ScriptGenerator.generate_script r1 g in
  let second := ScriptGenerator.generate_script r2 (snd first) in
  let parsed := PDFExtractor.parse_sections st in
  (exists content id,
     fst second =
       fst first ++
       ScriptGenerator.intro_scene :: content ++
       [ScriptGenerator.conclusion_scene id] /\
     content_scenes content = content) /\
  fst second <> fst first /\
  ~ NoDup (map scene_id (fst second)) /\
  fst (PDFExtractor.parse_sections (snd parsed)) =
    fst parsed ++
    fst (PDFExtractor.parse_sections
           (with_text (PDFExtractor.pdf_path st) (PDFExtractor.text_content st))).
Proof.
  cbv zeta.
  rewrite (generate_script_scenes r2), generate_script_state.
  rewrite (build_scenes_shape _ (fst (ScriptGenerator.generate_script r1 g))).
  set (batch := content_batch _ 2).
  repeat split.
  - exists batch, (2 + length batch).
    split; [reflexivity | apply content_batch_explaining].
  - intros E. apply (f_equal (@length scene)) in E.
    rewrite length_app in E. simpl in E. lia.
  - rewrite generate_script_scenes, build_scenes_shape.
    rewrite !map_app. cbn [map]. intros Hnd.
    apply NoDup_remove_2 in Hnd. apply Hnd.
    rewrite !in_app_iff. left. right. now left.
  - rewrite (parse_sections_extends (snd (PDFExtractor.parse_sections st))).
    now rewrite parse_sections_state.
Qed.

(** C4, as stated, fails: when the read fails after a page with text,
    [extract_text] returns the empty text, but the page stays in
    [self.text_content], which [generate_script] goes on to parse: the
    script has three scenes and lasts 21 seconds. *)
Lemma failed_read_three_scenes :
  let run :=
    ScriptGenerator.generate_script failed_after_page
      (ScriptGenerator.init (str "doc.pdf")) in
  let data := fst (ScriptGenerator.save_script failed_after_page (snd run)) in
  read_failed failed_after_page = true /\
  fst (PDFExtractor.extract_text failed_after_page
         (PDFExtractor.init (str "doc.pdf"))) = [] /\
  length (fst run) = 3 /\
  total_duration data = 21 /\
  ~ (length (fst run) = 2 /\ total_duration data = 16).
Proof.
  vm_compute. repeat split. intros [H _]. discriminate H.
Qed.

(** ** More on the extractor *)

(** The state of the loop of [parse_sections] keeps a property of the
    sections: [P] for the sections appended, [Q] for the current one. *)
Lemma parse_loop_invariant (P Q : section -> Prop) :
  (forall s, Q s -> truthy (sec_content s) = true -> P s) ->
  (forall line, truthy line = true ->
     PDFExtractor._is_section_header line = true ->
     Q {| sec_title := line; sec_content := [] |}) ->
  (forall s line, Q s -> truthy line = true ->
     Q {| sec_title := sec_title s;
          sec_content := sec_content s ++ line ++ str " " |}) ->
  forall lines secs cur,
    Forall P secs -> Q cur ->
    Forall P (fst (PDFExtractor.parse_loop lines secs cur)) /\
    Q (snd (PDFExtractor.parse_loop lines secs cur)).
Proof.
  intros Hflush Hnew Hadd.
  induction lines as [|raw rest IH]; intros secs cur Hsecs Hcur; simpl.
  - now split.
  - destruct (truthy (strip raw)) eqn:Hne; simpl; [|now apply IH].
    destruct (PDFExtractor._is_section_header (strip raw)) eqn:Hh.
    + apply IH; [|now apply Hnew].
      destruct (truthy (sec_content cur)) eqn:Hc; [|assumption].
      apply Forall_app. split; [assumption|].
      constructor; [now apply Hflush | constructor].
    + apply IH; [assumption | now apply Hadd].
Qed.

Lemma parse_sections_invariant (P Q : section -> Prop) (path t : text) :
  (forall s, Q s -> truthy (sec_content s) = true -> P s) ->
  (forall line, truthy line = true ->
     PDFExtractor._is_section_header line = true ->
     Q {| sec_title := line; sec_content := [] |}) ->
  (forall s line, Q s -> truthy line = true ->
     Q {| sec_title := sec_title s;
          sec_content := sec_content s ++ line ++ str " " |}) ->
  Q {| sec_title := str "Introduction"; sec_content := [] |} ->
  Forall P (fst (PDFExtractor.parse_sections (with_text path t))).
Proof.
  intros Hflush Hnew Hadd Hinit.
  unfold PDFExtractor.parse_sections, with_text.
  cbn [PDFExtractor.text_content PDFExtractor.sections].
  destruct (parse_loop_invariant P Q Hflush Hnew Hadd
              (split_char "010" t) []
              {| sec_title := str "Introduction"; sec_content := [] |}
              (Forall_nil P) Hinit) as [Hsecs Hcur].
  destruct (PDFExtractor.parse_loop _ _ _) as [secs cur].
  cbn [fst snd] in *.
  destruct (truthy (sec_content cur)) eqn:Hc; cbn [fst]; [|assumption].
  apply Forall_app. split; [assumption|].
  constructor; [now apply Hflush | constructor].
Qed.

(** X2: on a new extractor, no section returned by [parse_sections] has
    an empty content: every content ends with the space that follows its
    last line. *)
Theorem parsed_sections_have_content (path t : text) :
  Forall (fun s => sec_content s <> [] /\ ends_with_space (sec_content s))
    (fst (PDFExtractor.parse_sections (with_text path t))).
Proof.
  apply parse_sections_invariant
    with (Q := fun s => sec_content s = [] \/ ends_with_space (sec_content s)).
  - intros s [He | He] Hne; [rewrite He in Hne; discriminate|].
    split; [|assumption]. intros E. rewrite E in Hne. discriminate.
  - intros line _ _. now left.
  - intros s line _ _. right. exists (sec_content s ++ line).
    cbn [sec_content]. now rewrite <- app_assoc.
  - now left.
Qed.

(** X3: on a new extractor, the title of every section returned is the
    default title or a stripped line of the text, and in both cases a
    text that [_is_section_header] takes for a header. *)
Theorem parsed_titles_are_headers (path t : text) :
  Forall (fun s =>
            (sec_title s = str "Introduction" \/
             In (sec_title s) (stripped_lines t)) /\
            PDFExtractor._is_section_header (sec_title s) = true)
    (fst (PDFExtractor.parse_sections (with_text path t))).
Proof.
  unfold PDFExtractor.parse_sections, with_text.
  cbn [PDFExtractor.text_content PDFExtractor.sections].
  unfold stripped_lines.
  set (Q := fun lines s =>
              (sec_title s = str "Introduction" \/
               In (sec_title s) (filter truthy (map strip lines))) /\
              PDFExtractor._is_section_header (sec_title s) = true).
  assert (Hloop : forall lines seen secs cur,
             Forall (Q (seen ++ lines)) secs -> Q seen cur ->
             Forall (Q (seen ++ lines))
               (fst (PDFExtractor.parse_loop lines secs cur)) /\
             Q (seen ++ lines) (snd (PDFExtractor.parse_loop lines secs cur))).
  { assert (Hmono : forall seen more s, Q seen s -> Q (seen ++ more) s).
    { intros seen more s [[Hs | Hs] Hh]; (split; [|assumption]);
        [now left | right].
      rewrite map_app, filter_app, in_app_iff. now left. }
    induction lines as [|raw rest IH]; intros seen secs cur Hsecs Hcur.
    - simpl. split; [assumption | now apply Hmono].
    - replace (seen ++ raw :: rest) with ((seen ++ [raw]) ++ rest) in *
        by now rewrite <- app_assoc.
      assert (Hcur' : Q (seen ++ [raw]) cur) by now apply Hmono.
      simpl. destruct (truthy (strip raw)) eqn:Hne; simpl; [|now apply IH].
      destruct (PDFExtractor._is_section_header (strip raw)) eqn:Hh.
      + apply IH.
        * destruct (truthy (sec_content cur)); [|assumption].
          apply Forall_app. split; [assumption|].
          constructor; [now apply Hmono | constructor].
        * split; [|exact Hh]. right. cbn [sec_title].
          rewrite map_app, filter_app, in_app_iff. right.
          simpl. rewrite Hne. now left.
      + apply IH; [assumption|]. exact Hcur'. }
  destruct (Hloop (split_char "010" t) [] []
              {| sec_title := str "Introduction"; sec_content := [] |}
              (Forall_nil _)) as [Hsecs Hcur].
  { split; [now left | reflexivity]. }
  cbn [app] in *.
  destruct (PDFExtractor.parse_loop _ _ _) as [secs cur].
  cbn [fst snd] in *.
  destruct (truthy (sec_content cur)); cbn [fst]; [|assumption].
  apply Forall_app. split; [assumption|]. constructor; [assumption | constructor].
Qed.

Lemma parse_loop_no_header (lines : list text) :
  filter PDFExtractor._is_section_header (filter truthy (map strip lines)) = [] ->
  forall secs cur,
    PDFExtractor.parse_loop lines secs cur =
    (secs,
     {| sec_title := sec_title cur;
        sec_content :=
          sec_content cur ++
          concat (map (fun line => line ++ str " ")
                    (filter truthy (map strip lines))) |}).
Proof.
  induction lines as [|raw rest IH]; intros Hno secs cur; simpl.
  - rewrite app_nil_r. now destruct cur.
  - simpl in Hno. destruct (truthy (strip raw)) eqn:Hne; simpl; [|now apply IH].
    simpl in Hno.
    destruct (PDFExtractor._is_section_header (strip raw)) eqn:Hh;
      [discriminate|].
    rewrite (IH Hno). cbn [sec_title sec_content].
    now rewrite <- !app_assoc.
Qed.

(** X4: when no line of the text is taken for a header, [parse_sections]
    on a new extractor returns at most one section: none when the text has
    only blank lines, else one section titled "Introduction" that holds
    every line. *)
Theorem no_header_one_section (path t : text) :
  header_lines t = [] ->
  fst (PDFExtractor.parse_sections (with_text path t)) =
  match stripped_lines t with
  | [] => []
  | _ =>
      [{| sec_title := str "Introduction";
          sec_content :=
            concat (map (fun line => line ++ str " ") (stripped_lines t)) |}]
  end.
Proof.
  unfold header_lines, stripped_lines. intros Hno.
  unfold PDFExtractor.parse_sections, with_text.
  cbn [PDFExtractor.text_content PDFExtractor.sections].
  rewrite (parse_loop_no_header _ Hno). cbn [sec_title sec_content app].
  destruct (filter truthy (map strip (split_char "010" t))) as [|l ls] eqn:E.
  - reflexivity.
  - assert (Hl : truthy l = true).
    { assert (Hin : In l (filter truthy (map strip (split_char "010" t))))
        by (rewrite E; now left).
      now apply filter_In in Hin. }
    destruct l as [|c l]; [discriminate|]. reflexivity.
Qed.

Lemma no_header_one_section_witness :
  fst (PDFExtractor.parse_sections
         (with_text (str "doc.pdf") (str "first line" ++ [ascii_of_N 10] ++ str "second line"))) =
  [{| sec_title := str "Introduction";
      sec_content := str "first line second line " |}].
Proof.
  exact (no_header_one_section (str "doc.pdf")
           (str "first line" ++ [ascii_of_N 10] ++ str "second line") eq_refl).
Defined.

Lemma parse_loop_count (lines : list text) :
  forall secs cur,
    length (fst (PDFExtractor.parse_loop lines secs cur)) <=
    length secs +
    length (filter PDFExtractor._is_section_header
              (filter truthy (map strip lines))).
Proof.
  induction lines as [|raw rest IH]; intros secs cur; simpl; [lia|].
  destruct (truthy (strip raw)) eqn:Hne; simpl; [|apply IH].
  destruct (PDFExtractor._is_section_header (strip raw)) eqn:Hh; [|apply IH].
  etransitivity; [apply IH|]. simpl.
  destruct (truthy (sec_content cur)); [rewrite length_app; simpl|]; lia.
Qed.

(** X5: on a new extractor, [parse_sections] returns at most one section
    more than the text has header lines. *)
Theorem section_count_bound (path t : text) :
  length (fst (PDFExtractor.parse_sections (with_text path t))) <=
  S (length (header_lines t)).
Proof.
  unfold PDFExtractor.parse_sections, with_text, header_lines, stripped_lines.
  cbn [PDFExtractor.text_content PDFExtractor.sections].
  pose proof (parse_loop_count (split_char "010" t) []
                {| sec_title := str "Introduction"; sec_content := [] |}) as H.
  destruct (PDFExtractor.parse_loop _ _ _) as [secs cur].
  cbn [fst length] in *.
  destruct (truthy (sec_content cur)); cbn [fst];
    [rewrite length_app; simpl|]; lia.
Qed.

(** X6: a line of 100 characters or more is a header exactly when it is
    a numbered line: upper case and the keywords count only for lines of
    fewer than 100 characters. *)
Theorem long_line_header_iff (line : text) :
  100 <= length line ->
  (PDFExtractor._is_section_header line = true <-> numbered_line line).
Proof.
  intros Hlen. unfold PDFExtractor._is_section_header.
  assert (Hlt : (length line <? 100) = false) by now apply Nat.ltb_ge.
  rewrite Hlt, andb_false_r.
  assert (Hkw : existsb
                  (fun keyword =>
                     (contains (lower keyword) (lower line) && false)%bool)
                  PDFExtractor.header_keywords = false).
  { induction PDFExtractor.header_keywords as [|kw kws IH]; simpl;
      [reflexivity|]. now rewrite andb_false_r. }
  rewrite Hkw. split.
  - intros H. apply matches_numbered_line.
    destruct (re_match PDFExtractor.numbered_re line); [discriminate|].
    discriminate.
  - intros H. apply numbered_line_matches in H.
    destruct (re_match PDFExtractor.numbered_re line);
      [reflexivity | contradiction].
Qed.

Lemma long_line_header_iff_witness :
  PDFExtractor._is_section_header (str "1. " ++ long_line) = true <->
  numbered_line (str "1. " ++ long_line).
Proof.
  apply long_line_header_iff. apply Nat.leb_le. reflexivity.
Defined.

(** ** The summary of the extractor *)

Lemma insert_by_length_perm (x : section) (l : list section) :
  Permutation (insert_by_length x l) (x :: l).
Proof.
  induction l as [|y r IH]; simpl; [reflexivity|].
  destruct (length (sec_content x) <? length (sec_content y)); [|reflexivity].
  rewrite IH. apply perm_swap.
Qed.

Lemma sorted_by_length_perm (l : list section) :
  Permutation (sorted_by_length l) l.
Proof.
  induction l as [|x l IH]; simpl; [reflexivity|].
  rewrite insert_by_length_perm. now constructor.
Qed.

Lemma insert_by_length_sorted (x : section) (l : list section) :
  StronglySorted longer_first l ->
  StronglySorted longer_first (insert_by_length x l).
Proof.
  induction 1 as [|y r Hr IH Hy]; simpl.
  - repeat constructor.
  - destruct (length (sec_content x) <? length (sec_content y)) eqn:E.
    + apply Nat.ltb_lt in E. constructor; [assumption|].
      apply (Permutation_Forall (Permutation_sym (insert_by_length_perm x r))).
      constructor; [unfold longer_first; lia | assumption].
    + apply Nat.ltb_ge in E. constructor; [now constructor|].
      constructor; [exact E|].
      eapply Forall_impl; [|exact Hy]. unfold longer_first. intros z Hz. lia.
Qed.

Lemma sorted_by_length_sorted (l : list section) :
  StronglySorted longer_first (sorted_by_length l).
Proof.
  induction l as [|x l IH]; simpl; [constructor|].
  now apply insert_by_length_sorted.
Qed.

Lemma insert_by_length_filter (k : nat) (x : section) (l : list section) :
  filter (has_length k) (insert_by_length x l) =
  filter (has_length k) (x :: l).
Proof.
  induction l as [|y r IH]; [reflexivity|].
  cbn [insert_by_length].
  destruct (length (sec_content x) <? length (sec_content y)) eqn:E;
    [|reflexivity].
  apply Nat.ltb_lt in E. cbn [filter] in *. rewrite IH.
  unfold has_length.
  destruct (length (sec_content x) =? k) eqn:Ex; [|reflexivity].
  apply Nat.eqb_eq in Ex.
  destruct (length (sec_content y) =? k) eqn:Ey; [|reflexivity].
  apply Nat.eqb_eq in Ey. lia.
Qed.

Lemma sorted_by_length_filter (k : nat) (l : list section) :
  filter (has_length k) (sorted_by_length l) = filter (has_length k) l.
Proof.
  induction l as [|x l IH]; [reflexivity|].
  cbn [sorted_by_length fold_right]. fold (sorted_by_length l).
  rewrite insert_by_length_filter. cbn [filter]. now rewrite IH.
Qed.

Lemma firstn_In {A : Type} (x : A) (l : list A) :
  forall n, In x (firstn n l) -> In x l.
Proof.
  induction l as [|y l IH]; intros [|n]; simpl; try contradiction.
  intros [-> | H]; [now left | right; eauto].
Qed.

Lemma sorted_firstn {A : Type} (R : A -> A -> Prop) (l : list A) :
  StronglySorted R l -> forall n, StronglySorted R (firstn n l).
Proof.
  induction 1 as [|x l Hl IH Hx]; intros [|n]; simpl; try constructor.
  - apply IH.
  - apply Forall_forall. intros y Hy.
    rewrite Forall_forall in Hx. eapply Hx, firstn_In, Hy.
Qed.

Lemma sorted_app_cross {A : Type} (R : A -> A -> Prop) (l1 l2 : list A) :
  StronglySorted R (l1 ++ l2) ->
  forall a b, In a l1 -> In b l2 -> R a b.
Proof.
  induction l1 as [|x l1 IH]; simpl; intros Hs a b Ha Hb; [contradiction|].
  inversion Hs as [|? ? Hs' Hx]; subst.
  destruct Ha as [<- | Ha].
  - rewrite Forall_forall in Hx. apply Hx, in_app_iff. now right.
  - now apply IH.
Qed.

Lemma slice_to_firstn {A : Type} (n : Z) (l : list A) :
  exists m, slice_to n l = firstn m l /\
            ((0 <= n)%Z -> m = Z.to_nat n).
Proof.
  unfold slice_to. destruct (n <? 0)%Z eqn:E.
  - eexists. split; [reflexivity|]. apply Z.ltb_lt in E. lia.
  - eexists. split; [reflexivity|]. reflexivity.
Qed.

(** X7: [get_summary] returns the sections longest content first. *)
Theorem get_summary_sorted (r : pdf_read) (n : Z) (st : PDFExtractor.state) :
  StronglySorted longer_first (fst (get_summary r n st)).
Proof.
  unfold get_summary. cbn [fst].
  destruct (slice_to_firstn n (sorted_by_length
              (PDFExtractor.sections
                 (if negb (truthy (PDFExtractor.sections st))
                  then snd (PDFExtractor.parse_sections
                              (snd (PDFExtractor.extract_text r st)))
                  else st)))) as (m & -> & _).
  apply sorted_firstn, sorted_by_length_sorted.
Qed.

(** X8: for a bound [n] that is not negative, [get_summary] returns
    [min n (number of sections)] of the sections of the instance, and no
    section left out has a longer content than a section returned. *)
Theorem get_summary_longest (r : pdf_read) (n : Z) (st : PDFExtractor.state) :
  (0 <= n)%Z ->
  let result := fst (get_summary r n st) in
  let held := PDFExtractor.sections (snd (get_summary r n st)) in
  length result = Nat.min (Z.to_nat n) (length held) /\
  exists rest,
    Permutation held (result ++ rest) /\
    forall a b, In a result -> In b rest -> longer_first a b.
Proof.
  intros Hn. unfold get_summary. cbn [fst snd].
  set (held := PDFExtractor.sections _).
  destruct (slice_to_firstn n (sorted_by_length held)) as (m & -> & Hm).
  rewrite (Hm Hn). split.
  - rewrite length_firstn, (Permutation_length (sorted_by_length_perm held)).
    reflexivity.
  - exists (skipn (Z.to_nat n) (sorted_by_length held)). split.
    + rewrite firstn_skipn. symmetry. apply sorted_by_length_perm.
    + apply sorted_app_cross. rewrite firstn_skipn.
      apply sorted_by_length_sorted.
Qed.

Lemma get_summary_longest_witness :
  let result := fst (get_summary eleven_sections_read 5 (PDFExtractor.init (str "doc.pdf"))) in
  let held :=
    PDFExtractor.sections
      (snd (get_summary eleven_sections_read 5 (PDFExtractor.init (str "doc.pdf")))) in
  length result = Nat.min (Z.to_nat 5) (length held) /\
  exists rest,
    Permutation held (result ++ rest) /\
    forall a b, In a result -> In b rest -> longer_first a b.
Proof.
  apply (get_summary_longest eleven_sections_read 5
           (PDFExtractor.init (str "doc.pdf"))).
  discriminate.
Defined.

(** X9: [get_summary] keeps the order of the document among sections of
    equal content length: for every length, the sections of that length
    returned are the first ones of that length among the sections held. *)
Theorem get_summary_stable (r : pdf_read) (n : Z) (st : PDFExtractor.state)
    (k : nat) :
  exists rest,
    filter (has_length k) (PDFExtractor.sections (snd (get_summary r n st))) =
    filter (has_length k) (fst (get_summary r n st)) ++ rest.
Proof.
  unfold get_summary. cbn [fst snd].
  set (held := PDFExtractor.sections _).
  destruct (slice_to_firstn n (sorted_by_length held)) as (m & -> & _).
  exists (filter (has_length k) (skipn m (sorted_by_length held))).
  rewrite <- filter_app, firstn_skipn. symmetry.
  apply sorted_by_length_filter.
Qed.

(** ** The summary of a section *)

Lemma endswith_stop_app (s : text) : endswith (str ".") (s ++ str ".") = true.
Proof.
  unfold endswith. rewrite rev_app_distr. reflexivity.
Qed.

(** X10: a summary is empty, or ends with a full stop, or was cut at 300
    characters. *)
Theorem summary_ends_with_stop (content : text) :
  let summary := ScriptGenerator._summarize_content content in
  summary = [] \/ endswith (str ".") summary = true \/ length summary = 300.
Proof.
  unfold ScriptGenerator._summarize_content.
  set (joined := join (str ". ") _).
  set (ended := if (truthy joined && negb (endswith (str ".") joined))%bool
                then joined ++ str "." else joined).
  cbv zeta.
  assert (Hended : ended = [] \/ endswith (str ".") ended = true).
  { subst ended. destruct joined as [|c j]; [now left|]. right.
    cbn [truthy andb].
    destruct (endswith (str ".") (c :: j)) eqn:E; cbn [negb];
      [exact E | apply endswith_stop_app]. }
  destruct (Nat.le_gt_cases (length ended) 300) as [Hle | Hgt].
  - rewrite firstn_all2 by exact Hle.
    destruct Hended as [-> | H]; [now left | right; now left].
  - right. right. rewrite length_firstn. lia.
Qed.

Lemma rep_go_zero (p : ascii -> bool) (s : text) :
  exists rest,
    rep_go p 0 s (fun rest => Some rest) = Some rest /\ length rest <= length s.
Proof.
  induction s as [|c t IH]; simpl.
  - exists []. split; [reflexivity | simpl; lia].
  - destruct (p c).
    + destruct IH as (rest & -> & Hlen). exists rest. split; [reflexivity|].
      simpl. lia.
    + exists (c :: t). split; [reflexivity | simpl; lia].
Qed.

(** The pattern [[.!?]+] matches, without being empty, wherever a stop
    character stands. *)
Lemma stop_re_matches (c : ascii) (t : text) :
  ScriptGenerator.is_stop c = true ->
  exists n, match_len ScriptGenerator.stop_re (c :: t) = Some (S n).
Proof.
  intros Hc. unfold match_len, re_match, ScriptGenerator.stop_re.
  cbn [re_go rep_go pred]. rewrite Hc.
  destruct (rep_go_zero ScriptGenerator.is_stop t) as (rest & -> & Hlen).
  exists (length t - length rest). f_equal. cbn [length]. lia.
Qed.

Lemma re_split_no_stop (s : text) :
  forall skip cur,
    Forall (fun c => ScriptGenerator.is_stop c = false) cur ->
    Forall (Forall (fun c => ScriptGenerator.is_stop c = false))
      (re_split_from ScriptGenerator.stop_re skip cur s).
Proof.
  induction s as [|c t IH]; intros skip cur Hcur; simpl.
  - repeat constructor. assumption.
  - destruct skip as [|n]; [|now apply IH].
    destruct (ScriptGenerator.is_stop c) eqn:Hc.
    + destruct (stop_re_matches c t Hc) as (n & ->).
      constructor; [assumption | apply IH; constructor].
    + assert (Hgo : Forall (Forall (fun c => ScriptGenerator.is_stop c = false))
                      (re_split_from ScriptGenerator.stop_re 0 (cur ++ [c]) t)).
      { apply IH. apply Forall_app. split; [assumption | now repeat constructor]. }
      destruct (match_len ScriptGenerator.stop_re (c :: t)) as [[|n]|];
        try exact Hgo.
      constructor; [assumption | apply IH; constructor].
Qed.

Lemma Forall_lstrip (P : ascii -> Prop) (s : text) :
  Forall P s -> Forall P (lstrip s).
Proof.
  induction 1 as [|c t Hc Ht IH]; simpl; [constructor|].
  destruct (isspace c); [assumption | now constructor].
Qed.

Lemma Forall_strip (P : ascii -> Prop) (s : text) :
  Forall P s -> Forall P (strip s).
Proof.
  intros H. unfold strip, rstrip.
  apply Forall_rev, Forall_lstrip, Forall_rev, Forall_lstrip, H.
Qed.

Lemma Forall_join (P : ascii -> Prop) (sep : text) (l : list text) :
  Forall P sep -> Forall (Forall P) l -> Forall P (join sep l).
Proof.
  intros Hsep. induction 1 as [|x r Hx Hr IH]; simpl; [constructor|].
  destruct r as [|y r]; [assumption|].
  apply Forall_app. split; [assumption|].
  apply Forall_app. split; assumption.
Qed.

Lemma Forall_firstn {A : Type} (P : A -> Prop) (l : list A) (n : nat) :
  Forall P l -> Forall P (firstn n l).
Proof.
  rewrite !Forall_forall. intros H x Hx. eapply H, firstn_In, Hx.
Qed.

Lemma Forall_filter {A : Type} (P : A -> Prop) (f : A -> bool) (l : list A) :
  Forall P l -> Forall P (filter f l).
Proof.
  rewrite !Forall_forall. intros H x Hx. apply filter_In in Hx. now apply H.
Qed.

(** X11: no summary holds an exclamation mark or a question mark: the
    sentences are cut at these marks and joined with full stops. *)
Theorem summary_without_marks (content : text) :
  Forall (fun c => c <> "!"%char /\ c <> "?"%char)
    (ScriptGenerator._summarize_content content).
Proof.
  unfold ScriptGenerator._summarize_content.
  set (P := fun c : ascii => c <> "!"%char /\ c <> "?"%char).
  assert (Hstop : forall c, ScriptGenerator.is_stop c = false -> P c).
  { intros c Hc. split; intros ->; discriminate. }
  apply Forall_firstn.
  set (joined := join (str ". ") _).
  assert (Hjoined : Forall P joined).
  { subst joined. apply Forall_join.
    - repeat constructor; discriminate.
    - apply Forall_filter.
      apply Forall_forall. intros piece Hin.
      apply in_map_iff in Hin as (raw & <- & Hraw).
      apply Forall_strip.
      apply firstn_In in Hraw.
      pose proof (re_split_no_stop
                    (re_sub ScriptGenerator.et_al_re (str "and colleagues")
                       (re_sub ScriptGenerator.year_re []
                          (re_sub ScriptGenerator.citation_re [] content)))
                    0 [] (Forall_nil _)) as Hall.
      rewrite Forall_forall in Hall. specialize (Hall raw Hraw).
      eapply Forall_impl; [|exact Hall]. exact Hstop. }
  destruct (truthy joined && negb (endswith (str ".") joined))%bool;
    [|assumption].
  apply Forall_app. split; [assumption|]. repeat constructor; discriminate.
Qed.

(** ** The shape of a script *)

Lemma content_batch_pairs (secs : list section) :
  forall id,
    map (fun sc => (title sc, narration sc)) (content_batch secs id) =
    map (fun s => (ScriptGenerator._clean_title (sec_title s),
                   ScriptGenerator._summarize_content (sec_content s)))
      (filter qualifies secs).
Proof.
  induction secs as [|s rest IH]; intros id; simpl; [reflexivity|].
  destruct (qualifies s); simpl; now rewrite IH.
Qed.

Lemma content_scenes_build (secs : list section) :
  content_scenes (ScriptGenerator.build_scenes secs []) =
  content_batch (firstn 10 secs) 2.
Proof.
  rewrite build_scenes_shape. unfold content_scenes.
  cbn [app filter is_content_scene ScriptGenerator.intro_scene character_action].
  rewrite filter_app.
  cbn [filter is_content_scene ScriptGenerator.conclusion_scene character_action].
  rewrite app_nil_r. apply content_batch_explaining.
Qed.

(** X12: the content scenes of the script of a new generator follow the
    sections: they are, in the order of the document, the sections among
    the first ten with a content of 100 characters or more and a summary,
    each with its cleaned title as title and its summary as narration. *)
Theorem content_scenes_follow_sections (path : text) (r : pdf_read) :
  map (fun sc => (title sc, narration sc))
    (content_scenes
       (fst (ScriptGenerator.generate_script r (ScriptGenerator.init path)))) =
  map (fun s => (ScriptGenerator._clean_title (sec_title s),
                 ScriptGenerator._summarize_content (sec_content s)))
    (filter qualifies (firstn 10 (sections_of path r))).
Proof.
  rewrite generate_script_scenes.
  cbn [ScriptGenerator.init ScriptGenerator.extractor ScriptGenerator.scenes].
  fold (sections_of path r).
  rewrite content_scenes_build. apply content_batch_pairs.
Qed.

Lemma content_batch_at_most (secs : list section) (id : nat) :
  length (content_batch (firstn 10 secs) id) <= 10.
Proof.
  rewrite content_batch_length.
  etransitivity; [apply filter_length_le|].
  rewrite length_firstn. lia.
Qed.

(** X13: the script of a new generator has between 2 and 12 scenes; it
    starts with the fixed introduction and ends with the fixed conclusion,
    whose id is the number of scenes. *)
Theorem script_shape (path : text) (r : pdf_read) :
  let script :=
    fst (ScriptGenerator.generate_script r (ScriptGenerator.init path)) in
  2 <= length script <= 12 /\
  hd_error script = Some ScriptGenerator.intro_scene /\
  last script ScriptGenerator.intro_scene =
    ScriptGenerator.conclusion_scene (length script).
Proof.
  cbv zeta. rewrite generate_script_scenes.
  cbn [ScriptGenerator.init ScriptGenerator.extractor ScriptGenerator.scenes].
  rewrite build_scenes_shape. cbn [app hd_error].
  set (batch := content_batch _ 2).
  assert (Hlen : length batch <= 10) by apply content_batch_at_most.
  cbn [length]. rewrite length_app. cbn [length].
  repeat split; try lia.
  change (ScriptGenerator.intro_scene ::
          batch ++ [ScriptGenerator.conclusion_scene (2 + length batch)])
    with ((ScriptGenerator.intro_scene :: batch) ++
          [ScriptGenerator.conclusion_scene (2 + length batch)]).
  rewrite last_last. f_equal. lia.
Qed.

Lemma content_batch_narration (secs : list section) :
  forall id, Forall (fun sc => narration sc <> []) (content_batch secs id).
Proof.
  induction secs as [|s rest IH]; intros id; cbn [content_batch];
    [constructor|].
  unfold qualifies.
  destruct (100 <=? length (sec_content s)); cbn [andb]; [|apply IH].
  destruct (ScriptGenerator._summarize_content (sec_content s)) eqn:E;
    cbn [truthy]; [apply IH|].
  constructor; [|apply IH].
  cbn [narration ScriptGenerator.content_scene]. discriminate.
Qed.

(** X14: no scene of the script of a new generator has an empty
    narration. *)
Theorem narrations_not_empty (path : text) (r : pdf_read) :
  Forall (fun sc => narration sc <> [])
    (fst (ScriptGenerator.generate_script r (ScriptGenerator.init path))).
Proof.
  rewrite generate_script_scenes.
  cbn [ScriptGenerator.init ScriptGenerator.extractor ScriptGenerator.scenes].
  rewrite build_scenes_shape. cbn [app].
  constructor; [discriminate|].
  apply Forall_app. split; [|repeat constructor; discriminate].
  apply content_batch_narration.
Qed.

Lemma split_ws_from_count (s : text) :
  forall cur,
    2 * length (split_ws_from cur s) <=
    length s + match cur with [] => 1 | _ => 2 end.
Proof.
  induction s as [|c t IH]; intros cur; cbn [split_ws_from length].
  - destruct cur; simpl; lia.
  - destruct (isspace c).
    + destruct cur as [|x cur].
      * specialize (IH []). simpl in IH. lia.
      * specialize (IH []). cbn [length]. simpl in IH. lia.
    + specialize (IH (cur ++ [c])).
      destruct (cur ++ [c]) eqn:E.
      * destruct cur; discriminate.
      * destruct cur; lia.
Qed.

(** A text of [n] characters has at most [(n + 1) / 2] words. *)
Lemma split_ws_count (s : text) : 2 * length (split_ws s) <= length s + 1.
Proof. apply (split_ws_from_count s []). Qed.

Lemma content_scene_duration (id : nat) (s : section) (summary : text) :
  length summary <= 300 ->
  5 <= duration (ScriptGenerator.content_scene id s summary) <= 7.
Proof.
  intros Hlen. cbn [duration ScriptGenerator.content_scene].
  pose proof (split_ws_count summary) as Hw.
  assert (Hdiv : length (split_ws summary) / 20 < 8).
  { apply Nat.Div0.div_lt_upper_bound. lia. }
  lia.
Qed.

Lemma content_batch_durations (secs : list section) :
  forall id,
    Forall (fun sc => 5 <= duration sc <= 7) (content_batch secs id).
Proof.
  induction secs as [|s rest IH]; intros id; cbn [content_batch];
    [constructor|].
  destruct (qualifies s); [|apply IH].
  constructor; [|apply IH]. apply content_scene_duration, summary_length.
Qed.

Lemma list_sum_bounds (lo hi : nat) (l : list scene) :
  Forall (fun sc => lo <= duration sc <= hi) l ->
  lo * length l <= list_sum (map duration l) <= hi * length l.
Proof.
  induction 1 as [|sc l Hsc _ IH]; simpl; [lia|]. lia.
Qed.

(** X15: in the script of a new generator every content scene lasts 5, 6
    or 7 seconds and every scene at most 8, and the record saved from it
    has a total duration between 16 and 86 seconds. *)
Theorem script_durations (path : text) (r r' : pdf_read) :
  let run := ScriptGenerator.generate_script r (ScriptGenerator.init path) in
  let data := fst (ScriptGenerator.save_script r' (snd run)) in
  Forall (fun sc => 5 <= duration sc <= 7) (content_scenes (fst run)) /\
  Forall (fun sc => duration sc <= 8) (fst run) /\
  16 <= total_duration data <= 86.
Proof.
  cbv zeta.
  pose proof (generate_script_state r (ScriptGenerator.init path)) as Hst.
  unfold ScriptGenerator.save_script.
  rewrite generate_script_scenes in *.
  cbn [ScriptGenerator.init ScriptGenerator.extractor ScriptGenerator.scenes] in *.
  fold (sections_of path r) in *.
  rewrite content_scenes_build.
  rewrite build_scenes_shape in *. cbn [app] in *.
  set (batch := content_batch (firstn 10 (sections_of path r)) 2) in *.
  assert (Hb : Forall (fun sc => 5 <= duration sc <= 7) batch)
    by apply content_batch_durations.
  assert (Hlen : length batch <= 10) by apply content_batch_at_most.
  pose proof (list_sum_bounds 5 7 batch Hb) as Hsum.
  rewrite Hst. cbn [truthy negb fst total_duration].
  rewrite Hst. unfold ScriptGenerator.sum_durations.
  rewrite sum_durations_from.
  assert (Htotal :
            list_sum
              (map duration
                 (ScriptGenerator.intro_scene ::
                  batch ++
                  [ScriptGenerator.conclusion_scene (2 + length batch)])) =
            8 + list_sum (map duration batch) + 8).
  { change (ScriptGenerator.intro_scene ::
            batch ++ [ScriptGenerator.conclusion_scene (2 + length batch)])
      with ([ScriptGenerator.intro_scene] ++
            batch ++ [ScriptGenerator.conclusion_scene (2 + length batch)]).
    rewrite !map_app, !list_sum_app. simpl. lia. }
  rewrite Htotal.
  repeat split; try lia; [exact Hb|].
  constructor; [cbn; lia|].
  apply Forall_app. split.
  - eapply Forall_impl; [|exact Hb]. intros sc Hsc. cbn beta in Hsc. lia.
  - repeat constructor.
Qed.

Lemma build_scenes_truthy (secs : list section) (scenes0 : list scene) :
  truthy (ScriptGenerator.build_scenes secs scenes0) = true.
Proof.
  rewrite build_scenes_shape. now destruct scenes0.
Qed.

(** X16: [save_script] does not generate twice: once it has run, a
    further call returns the same record and leaves the instance as it
    is, whatever the PDF gives then. *)
Theorem save_script_idempotent (r1 r2 : pdf_read) (g : ScriptGenerator.state) :
  ScriptGenerator.save_script r2 (snd (ScriptGenerator.save_script r1 g)) =
  ScriptGenerator.save_script r1 g.
Proof.
  unfold ScriptGenerator.save_script at 2 3. cbn [snd].
  set (g' := if negb (truthy (ScriptGenerator.scenes g))
             then snd (ScriptGenerator.generate_script r1 g) else g).
  assert (Hne : truthy (ScriptGenerator.scenes g') = true).
  { subst g'. destruct (truthy (ScriptGenerator.scenes g)) eqn:E;
      cbn [negb]; [exact E|].
    rewrite generate_script_state, generate_script_scenes.
    apply build_scenes_truthy. }
  unfold ScriptGenerator.save_script. now rewrite Hne.
Qed.

(** ** Cleaned titles *)

Lemma isspace_to_lower (c : ascii) : isspace (to_lower c) = isspace c.
Proof.
  destruct c as [b0 b1 b2 b3 b4 b5 b6 b7].
  destruct b0, b1, b2, b3, b4, b5, b6, b7; reflexivity.
Qed.

Lemma to_title_word (c : ascii) :
  isspace c = false ->
  to_title c <> [] /\ Forall (fun x => isspace x = false) (to_title c).
Proof.
  destruct c as [b0 b1 b2 b3 b4 b5 b6 b7].
  destruct b0, b1, b2, b3, b4, b5, b6, b7; intros H; try discriminate H;
    (split; [discriminate | repeat constructor]).
Qed.

Lemma capitalize_word (w : text) : is_word w -> is_word (capitalize w).
Proof.
  intros [Hne Hall]. destruct w as [|c t]; [contradiction|].
  inversion Hall as [|? ? Hc Ht]; subst.
  destruct (to_title_word c Hc) as [Hne' Hall'].
  cbn [capitalize]. split.
  - destruct (to_title c); [contradiction | discriminate].
  - apply Forall_app. split; [assumption|].
    unfold lower. apply Forall_map.
    eapply Forall_impl; [|exact Ht]. intros x Hx. now rewrite isspace_to_lower.
Qed.

Lemma split_ws_from_words (s : text) :
  forall cur,
    Forall (fun c => isspace c = false) cur ->
    Forall is_word (split_ws_from cur s).
Proof.
  induction s as [|c t IH]; intros cur Hcur; cbn [split_ws_from].
  - destruct cur; [constructor|]. constructor; [|constructor].
    split; [discriminate | assumption].
  - destruct (isspace c) eqn:Hc.
    + destruct cur as [|x cur]; [apply IH; constructor|].
      constructor; [split; [discriminate | assumption]|].
      apply IH. constructor.
    + apply IH. apply Forall_app. split; [assumption|]. now repeat constructor.
Qed.

Lemma split_ws_words (s : text) : Forall is_word (split_ws s).
Proof. apply split_ws_from_words. constructor. Qed.

Lemma split_ws_from_word (w : text) :
  Forall (fun c => isspace c = false) w ->
  forall cur rest,
    split_ws_from cur (w ++ rest) = split_ws_from (cur ++ w) rest.
Proof.
  induction 1 as [|c w Hc _ IH]; intros cur rest; simpl.
  - now rewrite app_nil_r.
  - rewrite Hc, IH. now rewrite <- app_assoc.
Qed.

(** Splitting at white space what was joined with single spaces gives the
    words back. *)
Lemma split_ws_join (ws : list text) :
  Forall is_word ws -> split_ws (join (str " ") ws) = ws.
Proof.
  unfold split_ws. change (str " ") with [" "%char].
  induction 1 as [|w ws [Hne Hw] Hws IH]; [reflexivity|].
  cbn [join]. destruct ws as [|w' ws].
  - assert (E : split_ws_from [] w = split_ws_from ([] ++ w) []).
    { rewrite <- (split_ws_from_word w Hw). now rewrite app_nil_r. }
    rewrite E. simpl. destruct w; [contradiction | reflexivity].
  - rewrite (split_ws_from_word w Hw []). cbn [app].
    cbn [split_ws_from]. change (isspace " ") with true. cbn iota.
    destruct w; [contradiction|]. now rewrite IH.
Qed.

(** X17: a cleaned title is trimmed and single-spaced: splitting it at
    white space and joining the words with one space gives it back, and
    its words are the words of the title after its leading number, in
    order, one for one. *)
Theorem clean_title_normal (title : text) :
  join (str " ") (split_ws (ScriptGenerator._clean_title title)) =
    ScriptGenerator._clean_title title /\
  length (split_ws (ScriptGenerator._clean_title title)) =
    length (split_ws
              (match re_match ScriptGenerator.numbering_re title with
               | Some rest => rest
               | None => title
               end)).
Proof.
  unfold ScriptGenerator._clean_title.
  set (start := match re_match ScriptGenerator.numbering_re title with
                | Some rest => rest
                | None => title
                end).
  set (cleaned := map _ (split_ws start)).
  assert (Hcleaned : Forall is_word cleaned).
  { subst cleaned. apply Forall_map.
    eapply Forall_impl; [|apply split_ws_words].
    intros w Hw. cbn beta.
    destruct (isupper w && (3 <? length w))%bool;
      [now apply capitalize_word | assumption]. }
  rewrite (split_ws_join _ Hcleaned). split; [reflexivity|].
  subst cleaned. apply length_map.
Qed.

(** A greedy repetition that can take the whole of [pre], and no more,
    takes it when the rest of the pattern then matches. *)
Lemma rep_go_greedy {A : Type} (p : ascii -> bool) (pre : text) :
  forall lo rest (k : text -> option A) a,
    forallb p pre = true -> lo <= length pre ->
    match rest with [] => True | x :: _ => p x = false end ->
    k rest = Some a ->
    rep_go p lo (pre ++ rest) k = Some a.
Proof.
  induction pre as [|c pre IH]; intros lo rest k a Hall Hlen Hrest Hk.
  - simpl in Hlen. assert (lo = 0) as -> by lia. simpl.
    destruct rest as [|x t]; [exact Hk|]. cbn [rep_go]. now rewrite Hrest.
  - simpl in Hall. apply andb_true_iff in Hall as [Hc Hall].
    cbn [app rep_go]. rewrite Hc.
    rewrite (IH (pred lo) rest k a); auto. simpl in Hlen. lia.
Qed.

Lemma space_not_digit (x : ascii) :
  isspace x = true -> isdigit x = false /\ Ascii.eqb x "." = false.
Proof.
  destruct x as [b0 b1 b2 b3 b4 b5 b6 b7].
  destruct b0, b1, b2, b3, b4, b5, b6, b7; intros H;
    try discriminate H; split; reflexivity.
Qed.

Lemma numbering_re_takes_number (ds dot ws rest : text) (c : ascii) :
  ds <> [] -> forallb isdigit ds = true ->
  dot = [] \/ dot = str "." ->
  forallb isspace ws = true ->
  isdigit c = false -> isspace c = false -> Ascii.eqb c "." = false ->
  re_match ScriptGenerator.numbering_re (ds ++ dot ++ ws ++ c :: rest) =
  Some (c :: rest).
Proof.
  intros Hds Hdig Hdot Hsp Hcd Hcs Hcp.
  assert (Hws : rep_go isspace 0 (ws ++ c :: rest) (fun s => Some s) =
                Some (c :: rest)).
  { apply rep_go_greedy; auto. lia. }
  unfold re_match, ScriptGenerator.numbering_re. cbn [re_go].
  apply rep_go_greedy.
  - exact Hdig.
  - destruct ds; [contradiction | simpl; lia].
  - destruct Hdot as [-> | ->]; [|reflexivity]. cbn [app].
    destruct ws as [|x ws]; [exact Hcd|]. cbn [app].
    simpl in Hsp. apply andb_true_iff in Hsp as [Hx _].
    now apply space_not_digit.
  - destruct Hdot as [-> | ->]; cbn [app str list_ascii_of_string].
    + destruct ws as [|x ws]; cbn [app] in *.
      * rewrite Hcp. exact Hws.
      * simpl in Hsp. apply andb_true_iff in Hsp as [Hx _].
        destruct (space_not_digit x Hx) as [_ ->]. exact Hws.
    + rewrite Ascii.eqb_refl, Hws. reflexivity.
Qed.

(** X18: [_clean_title] removes a leading number: for a title made of
    digits, an optional full stop, white space or none, and then a text
    that starts with a character that is not a digit, a full stop or
    white space, the cleaned title is the cleaned title of that text. *)
Theorem clean_title_drops_number (ds dot ws rest : text) (c : ascii) :
  ds <> [] -> forallb isdigit ds = true ->
  dot = [] \/ dot = str "." ->
  forallb isspace ws = true ->
  isdigit c = false -> isspace c = false -> Ascii.eqb c "." = false ->
  ScriptGenerator._clean_title (ds ++ dot ++ ws ++ c :: rest) =
  ScriptGenerator._clean_title (c :: rest).
Proof.
  intros Hds Hdig Hdot Hsp Hcd Hcs Hcp.
  unfold ScriptGenerator._clean_title.
  rewrite (numbering_re_takes_number ds dot ws rest c) by assumption.
  assert (Hnone : re_match ScriptGenerator.numbering_re (c :: rest) = None).
  { unfold re_match, ScriptGenerator.numbering_re. cbn [re_go rep_go].
    now rewrite Hcd. }
  now rewrite Hnone.
Qed.

Lemma clean_title_drops_number_witness :
  ScriptGenerator._clean_title (str "3. OVERVIEW of devices") =
  ScriptGenerator._clean_title (str "OVERVIEW of devices").
Proof.
  apply (clean_title_drops_number (str "3") (str ".") (str " ")
           (str "VERVIEW of devices") "O"%char);
    try reflexivity; [discriminate | now right].
Defined.

Lemma join_split_length (s : text) :
  forall cur,
    length (join (str " ") (split_ws_from cur s)) <= length cur + length s.
Proof.
  change (str " ") with [" "%char].
  induction s as [|c t IH]; intros cur; cbn [split_ws_from].
  - destruct cur; simpl; lia.
  - destruct (isspace c).
    + destruct cur as [|x cur].
      * specialize (IH []). simpl in *. lia.
      * specialize (IH []). cbn [join].
        destruct (split_ws_from [] t) as [|w ws].
        -- simpl. lia.
        -- rewrite !length_app. simpl in *. lia.
    + specialize (IH (cur ++ [c])). rewrite length_app in IH. simpl in *. lia.
Qed.

Lemma join_map_length (sep : text) (f : text -> text) (ws : list text) :
  (forall w, length (f w) = length w) ->
  length (join sep (map f ws)) = length (join sep ws).
Proof.
  intros Hf. induction ws as [|w ws IH]; [reflexivity|].
  cbn [map join]. destruct ws as [|w' ws]; [apply Hf|].
  cbn [map] in *. rewrite !length_app, Hf, IH. reflexivity.
Qed.

(** A character that is not lower-case is its own title-case form. *)
Lemma to_title_not_lower (c : ascii) : cased_lower c = false -> to_title c = [c].
Proof.
  destruct c as [b0 b1 b2 b3 b4 b5 b6 b7].
  destruct b0, b1, b2, b3, b4, b5, b6, b7; intros H; try discriminate H;
    reflexivity.
Qed.

(** The program capitalizes a word only when [isupper] holds: the word
    then keeps its first character and its length. *)
Lemma capitalize_isupper (w : text) :
  isupper w = true ->
  capitalize w = match w with [] => [] | c :: t => c :: lower t end.
Proof.
  unfold isupper. intros H. apply andb_true_iff in H as [_ H].
  apply negb_true_iff in H. destruct w as [|c t]; [reflexivity|].
  cbn [existsb] in H. apply orb_false_iff in H as [Hc _].
  cbn [capitalize]. now rewrite (to_title_not_lower c Hc).
Qed.

Lemma capitalize_length (w : text) :
  isupper w = true -> length (capitalize w) = length w.
Proof.
  intros H. rewrite (capitalize_isupper w H).
  destruct w as [|c t]; [reflexivity|]. cbn [length]. unfold lower.
  now rewrite length_map.
Qed.

Lemma re_match_rest_length (r : regex) (s rest : text) :
  re_match r s = Some rest -> length rest <= length s.
Proof.
  intros H. apply re_go_sound in H as (pre & rest' & -> & _ & E).
  injection E as ->. rewrite length_app. lia.
Qed.

(** X19: for a title whose characters all have code points up to 255 (the
    texts of this embedding), the cleaned title is never longer than the
    title: removing the number and joining the words with single spaces
    add nothing, and a word is capitalized only when it has no lower-case
    character, which in this range keeps its length. *)
Theorem clean_title_length (title : text) :
  length (ScriptGenerator._clean_title title) <= length title.
Proof.
  unfold ScriptGenerator._clean_title.
  rewrite join_map_length.
  - etransitivity; [apply (join_split_length _ [])|]. cbn [length plus].
    destruct (re_match ScriptGenerator.numbering_re title) as [rest|] eqn:E;
      [now apply re_match_rest_length in E | lia].
  - intros w. destruct (isupper w) eqn:Hw; cbn [andb]; [|reflexivity].
    destruct (3 <? length w); [now apply capitalize_length | reflexivity].
Qed.

(** ** The files of the scenes *)

Lemma format_int_inj (n m : nat) :
  VideoGenerator.format_int n = VideoGenerator.format_int m -> n = m.
Proof.
  unfold VideoGenerator.format_int, str. intros H.
  apply (f_equal string_of_list_ascii) in H.
  rewrite !string_of_list_ascii_of_string in H.
  apply (f_equal DecimalString.NilEmpty.uint_of_string) in H.
  rewrite !DecimalString.NilEmpty.usu in H.
  injection H as H. now apply DecimalNat.Unsigned.to_uint_inj.
Qed.

Lemma asset_name_relative (k : VideoGenerator.asset) (sc : scene) :
  startswith (str "/") (VideoGenerator.asset_name k sc) = false.
Proof. destruct k; reflexivity. Qed.

Lemma asset_path_prefix (dir : text) :
  exists prefix, forall k sc,
    VideoGenerator.asset_path dir k sc =
    prefix ++ VideoGenerator.asset_name k sc.
Proof.
  unfold VideoGenerator.asset_path, VideoGenerator.path_join.
  destruct (negb (truthy dir) || endswith (str "/") dir)%bool.
  - exists dir. intros k sc. now rewrite asset_name_relative.
  - exists (dir ++ str "/"). intros k sc.
    now rewrite asset_name_relative, <- app_assoc.
Qed.

Lemma asset_name_injective (k1 k2 : VideoGenerator.asset) (sc1 sc2 : scene) :
  VideoGenerator.asset_name k1 sc1 = VideoGenerator.asset_name k2 sc2 ->
  k1 = k2 /\ scene_id sc1 = scene_id sc2.
Proof.
  assert (Hsame : forall pre suf a b,
             pre ++ VideoGenerator.format_int a ++ suf =
             pre ++ VideoGenerator.format_int b ++ suf -> a = b).
  { intros pre suf a b H. apply app_inv_head, app_inv_tail in H.
    now apply format_int_inj. }
  assert (Hends : forall a b,
             str "scene_" ++ VideoGenerator.format_int a ++ str ".png" <>
             str "scene_" ++ VideoGenerator.format_int b ++ str ".mp4").
  { intros a b H. apply app_inv_head in H.
    change (str ".png") with (str ".pn" ++ ["g"%char]) in H.
    change (str ".mp4") with (str ".mp" ++ ["4"%char]) in H.
    rewrite !app_assoc in H. apply app_inj_tail in H as [_ H].
    discriminate H. }
  destruct k1, k2; unfold VideoGenerator.asset_name; intros H;
    try (split; [reflexivity | now apply Hsame in H]);
    try (exfalso; now apply Hends in H);
    try (exfalso; symmetry in H; now apply Hends in H);
    exfalso; cbn [str list_ascii_of_string app] in H; discriminate H.
Qed.

(** X20: two files of scenes have the same path only when they are the
    same kind of file and their scenes have the same id. *)
Theorem asset_path_injective (dir : text) (k1 k2 : VideoGenerator.asset)
    (sc1 sc2 : scene) :
  VideoGenerator.asset_path dir k1 sc1 = VideoGenerator.asset_path dir k2 sc2 ->
  k1 = k2 /\ scene_id sc1 = scene_id sc2.
Proof.
  destruct (asset_path_prefix dir) as (prefix & Hp).
  rewrite !Hp. intros H. apply app_inv_head in H.
  now apply asset_name_injective.
Qed.

Lemma asset_path_injective_witness :
  VideoGenerator.image = VideoGenerator.image /\
  scene_id ScriptGenerator.intro_scene = scene_id ScriptGenerator.intro_scene.
Proof.
  exact (asset_path_injective VideoGenerator.temp_dir
           VideoGenerator.image VideoGenerator.image
           ScriptGenerator.intro_scene ScriptGenerator.intro_scene eq_refl).
Defined.

Lemma NoDup_flat_map {A B : Type} (f : A -> list B) (l : list A) :
  NoDup l ->
  (forall a, In a l -> NoDup (f a)) ->
  (forall a b x, In a l -> In b l -> In x (f a) -> In x (f b) -> a = b) ->
  NoDup (flat_map f l).
Proof.
  induction 1 as [|a l Ha Hl IH]; intros Hf Hinj; simpl; [constructor|].
  apply NoDup_app.
  - apply Hf. now left.
  - apply IH.
    + intros b Hb. apply Hf. now right.
    + intros b c x Hb Hc. apply Hinj; now right.
  - intros x Hx Hx'. apply in_flat_map in Hx' as (b & Hb & Hxb).
    assert (a = b) by (apply (Hinj a b x); auto; [now left | now right]).
    subst b. contradiction.
Qed.

(** X21: the files written for the script of a new generator all have
    different paths: no scene overwrites a file of another scene, and no
    file of a scene overwrites another file of that scene. *)
Theorem script_assets_distinct (path dir : text) (r : pdf_read) :
  NoDup
    (script_assets dir
       (fst (ScriptGenerator.generate_script r (ScriptGenerator.init path)))).
Proof.
  rewrite generate_script_scenes.
  cbn [ScriptGenerator.init ScriptGenerator.extractor ScriptGenerator.scenes].
  set (script := ScriptGenerator.build_scenes _ []).
  assert (Hids : NoDup (map scene_id script)).
  { subst script. rewrite build_scenes_ids. apply seq_NoDup. }
  unfold script_assets. apply NoDup_flat_map.
  - now apply NoDup_map_inv in Hids.
  - intros sc _. repeat constructor; simpl; intros H;
      repeat (destruct H as [H | H];
              [apply asset_path_injective in H as [H _]; discriminate H|]);
      exact H.
  - intros a b x Ha Hb Hxa Hxb.
    apply in_map_iff in Hxa as (k1 & <- & _).
    apply in_map_iff in Hxb as (k2 & Hx & _).
    apply asset_path_injective in Hx as [_ Hid].
    clear -Hids Ha Hb Hid. induction script as [|c l IH]; [contradiction|].
    simpl in Hids. inversion Hids as [|? ? Hc Hl]; subst.
    destruct Ha as [-> | Ha], Hb as [-> | Hb]; auto.
    + exfalso. apply Hc. rewrite <- Hid. now apply in_map.
    + exfalso. apply Hc. rewrite Hid. now apply in_map.
Qed.

Lemma content_batch_actions (secs : list section) :
  forall id,
    Forall (fun sc => character_action sc = explaining) (content_batch secs id).
Proof.
  induction secs as [|s rest IH]; intros id; cbn [content_batch];
    [constructor|].
  destruct (qualifies s); [|apply IH]. constructor; [reflexivity | apply IH].
Qed.

(** X22: of the script of a new generator, the automated run renders the
    first three scenes at most, the introduction first; the conclusion is
    among them only when the script has no more than three scenes, that
    is at most one content scene. *)
Theorem preview_of_script (path : text) (r : pdf_read) :
  let script :=
    fst (ScriptGenerator.generate_script r (ScriptGenerator.init path)) in
  let preview := preview_scenes script in
  length preview = Nat.min 3 (length script) /\
  hd_error preview = Some ScriptGenerator.intro_scene /\
  existsb is_concluding preview = (length script <=? 3).
Proof.
  cbv zeta. rewrite generate_script_scenes.
  cbn [ScriptGenerator.init ScriptGenerator.extractor ScriptGenerator.scenes].
  rewrite build_scenes_shape. cbn [app]. unfold preview_scenes.
  pose proof (content_batch_actions (firstn 10 (sections_of path r)) 2) as Hact.
  fold (sections_of path r).
  destruct (content_batch (firstn 10 (sections_of path r)) 2)
    as [|b1 [|b2 rest]].
  - repeat split.
  - inversion Hact as [|? ? H1 _]; subst. repeat split.
    cbn. unfold is_concluding. now rewrite H1.
  - inversion Hact as [|? ? H1 Hact']; subst.
    inversion Hact' as [|? ? H2 _]; subst. repeat split.
    cbn [app length firstn existsb]. unfold is_concluding at 1 2 3.
    rewrite H1, H2. cbn [ScriptGenerator.intro_scene character_action orb].
    rewrite length_app. cbn [length].
    symmetry. apply Nat.leb_gt. lia.
Qed.

(** ** The frames of the demo *)

(** X23: the frames [create_animated_gif] opens are all among the frames
    [create_demo_frames] has saved exactly when the script has three
    scenes or more: for a shorter script the third frame is not one of
    this run. *)
Theorem demo_frames_cover (script : list scene) :
  incl frames_read (frames_written script) <-> 3 <= length script.
Proof.
  unfold incl.
  destruct script as [|a [|b [|c rest]]]; split; cbn [length]; intros H.
  - exfalso. specialize (H (frame_name 2)). apply H. vm_compute. auto.
  - lia.
  - exfalso. specialize (H (frame_name 2)).
    assert (Hin : In (frame_name 2) frames_read) by (vm_compute; auto).
    apply H in Hin. vm_compute in Hin.
    repeat (destruct Hin as [Hin | Hin]; [discriminate Hin|]). exact Hin.
  - lia.
  - exfalso. specialize (H (frame_name 2)).
    assert (Hin : In (frame_name 2) frames_read) by (vm_compute; auto).
    apply H in Hin. vm_compute in Hin.
    repeat (destruct Hin as [Hin | Hin]; [discriminate Hin|]). exact Hin.
  - lia.
  - lia.
  - intros f Hf. exact Hf.
Qed.
